(** * Documentation gatherer: extraction, walking and formatting

    A shallow embedding of [tooling/bootstrap/gather_docs.py] (class
    [DocGatherer]) together with the properties of its three stages:
    walking the tree, extracting the doc comment of one file, and rendering
    the records.

    Python strings are sequences of code points, so a [str] is a list of
    code points; the literals of the source are written with [lit].  Paths
    are printed as on POSIX, with [/] between their components.  A call
    that may raise outside every [try] has a [result]: [is_file], and with
    it the loop of [gather_docs] and [main]. *)

From Stdlib Require Import String Ascii.
From Stdlib Require Import List NArith ZArith Arith Bool Lia DecimalString.
Import ListNotations.

Set Implicit Arguments.
Set Warnings "-register-all".

(** ** Strings *)

Definition char := N.
Definition str := list char.

(** An ASCII literal of the source as a [str]. *)
Definition lit (s : string) : str :=
  map N_of_ascii (list_ascii_of_string s).

Definition NL : char := 10%N.        (* the line feed, backslash-n *)
Definition DQUOTE : char := 34%N.    (* the double quote *)

Fixpoint str_eqb (a b : str) : bool :=
  match a, b with
  | [], [] => true
  | x :: a', y :: b' => N.eqb x y && str_eqb a' b'
  | _, _ => false
  end.

(** [str.isspace] on one code point, which is also what [\s] matches in a
    [str] pattern: the ASCII white space 9-13 and 28-32, and the Unicode
    white space beyond it. *)
Definition is_space (c : char) : bool :=
  ((9 <=? c) && (c <=? 13) || (28 <=? c) && (c <=? 32)
   || (c =? 133) || (c =? 160) || (c =? 5760)
   || (8192 <=? c) && (c <=? 8202)
   || (c =? 8232) || (c =? 8233) || (c =? 8239) || (c =? 8287)
   || (c =? 12288))%N.

Fixpoint lstrip (s : str) : str :=
  match s with
  | c :: s' => if is_space c then lstrip s' else s
  | [] => []
  end.

Definition rstrip (s : str) : str := rev (lstrip (rev s)).

(** [s.strip()] *)
Definition strip (s : str) : str := rstrip (lstrip s).

(** [sep.join(parts)] *)
Fixpoint join (sep : str) (parts : list str) : str :=
  match parts with
  | [] => []
  | [p] => p
  | p :: ps => p ++ sep ++ join sep ps
  end.

(** ["-" * n] and the like *)
Definition str_mul (s : str) (n : nat) : str := concat (repeat s n).

(** Truth value of a Python string: the empty string is false. *)
Definition truthy (s : str) : bool :=
  match s with [] => false | _ => true end.

(** ** Regular expressions

    The fragment of [re] the source uses: literal characters, the greedy
    [\s*] and the non-greedy capture group [(.*?)].  [match_here] is the
    backtracking matcher anchored at the head of the text; it returns the
    captured groups and the text left after the match.  [dotall] is the
    [re.DOTALL] flag: without it [.] does not match a line feed. *)

Inductive atom : Type :=
| Chr (c : char)
| WsStar
| LazyGroup.

Definition regex := list atom.

Definition chars (s : str) : regex := map Chr s.

Definition dot_matches (dotall : bool) (c : char) : bool :=
  dotall || negb (N.eqb c NL).

Fixpoint match_here (dotall : bool) (r : regex) {struct r}
  : str -> option (list str * str) :=
  match r with
  | [] => fun s => Some ([], s)
  | Chr c :: r' => fun s =>
      match s with
      | x :: s' => if N.eqb x c then match_here dotall r' s' else None
      | [] => None
      end
  | WsStar :: r' =>
      fix greedy (s : str) : option (list str * str) :=
        match s with
        | x :: s' =>
            if is_space x then
              match greedy s' with
              | Some res => Some res
              | None => match_here dotall r' s
              end
            else match_here dotall r' s
        | [] => match_here dotall r' []
        end
  | LazyGroup :: r' =>
      fix lazy (s : str) : option (list str * str) :=
        match match_here dotall r' s with
        | Some (gs, rest) => Some ([] :: gs, rest)
        | None =>
            match s with
            | x :: s' =>
                if dot_matches dotall x then
                  match lazy s' with
                  | Some (g :: gs, rest) => Some ((x :: g) :: gs, rest)
                  | _ => None
                  end
                else None
            | [] => None
            end
        end
  end.

(** A match object: where the match starts, its groups, and the text after
    the match. *)
Record Match : Type := mkMatch {
  m_start : nat;
  m_groups : list str;
  m_rest : str
}.

(** [m.group(n)] for [n >= 1] *)
Definition group (m : Match) (n : nat) : str :=
  nth (n - 1) (m_groups m) [].

Fixpoint search_from (dotall : bool) (r : regex) (pos : nat) (s : str)
  : option Match :=
  match match_here dotall r s with
  | Some (gs, rest) => Some (mkMatch pos gs rest)
  | None =>
      match s with
      | [] => None
      | _ :: s' => search_from dotall r (S pos) s'
      end
  end.

(** [re.search(pattern, s, flags)]: the leftmost position where the pattern
    matches. *)
Definition re_search (r : regex) (s : str) (dotall : bool) : option Match :=
  search_from dotall r 0 s.

(** ** Paths and the file system

    A path is the list of its components.  A directory tree is what lies
    under the scan root: regular files with what [read_text] gives for
    them, directories with their entries in the order the file system
    enumerates them, entries that are neither, and entries whose [stat] is
    refused. *)

Definition Path := list str.

(** [os.sep], on POSIX. *)
Definition os_sep : str := lit "/".

(** [str(path)]; the path without components is written as a dot. *)
Definition path_str (p : Path) : str :=
  match p with
  | [] => lit "."
  | _ :: _ => join os_sep p
  end.

(** [path.name] *)
Definition name (p : Path) : str := last p [].

(** [s.rfind(c)], scanning from position [pos] on. *)
Fixpoint rfind_from (c : char) (s : str) (pos : nat) : option nat :=
  match s with
  | [] => None
  | x :: s' =>
      match rfind_from c s' (S pos) with
      | Some i => Some i
      | None => if N.eqb x c then Some pos else None
      end
  end.

Definition DOT : char := 46%N.

(** [path.suffix]: the name from its last dot on, when that dot is neither
    the first nor the last character of the name. *)
Definition suffix (p : Path) : str :=
  let n := name p in
  match rfind_from DOT n 0 with
  | Some i => if (0 <? i) && (i <? length n - 1) then skipn i n else []
  | None => []
  end.

(** [path.relative_to(root)]; [None] stands for the [ValueError], whose
    message [try_patterns] spells out. *)
Fixpoint relative_to (p root : Path) {struct root} : option Path :=
  match root with
  | [] => Some p
  | r :: root' =>
      match p with
      | x :: p' => if str_eqb x r then relative_to p' root' else None
      | [] => None
      end
  end.

Inductive read_result : Type :=
| Text (content : str)          (* the decoded content *)
| Unreadable (msg : str).       (* [read_text] raises, with this message *)

(** What a call that may raise gives: its value, or the text of the
    exception. *)
Inductive result (A : Type) : Type :=
| Ok (a : A)
| Raised (e : str).

Arguments Ok {A} a.
Arguments Raised {A} e.

(** An entry under the root.  [NoStat] is an entry that the listing of its
    directory shows but whose [stat] is refused with an error that
    [is_file] does not ignore, [e] being its text: anything inside a
    directory that can be listed but not searched.  Nothing is found below
    such an entry. *)
Inductive entry : Type :=
| File (n : str) (data : read_result)
| Dir (n : str) (children : list entry)
| Other (n : str)
| NoStat (n : str) (e : str).

Definition entry_name (e : entry) : str :=
  match e with File n _ | Dir n _ | Other n | NoStat n _ => n end.

(** [path.is_file()]: it asks for the [stat] of the path, answers [False]
    for a path that does not exist, and lets every other error through. *)
Definition is_file (e : entry) : result bool :=
  match e with
  | File _ _ => Ok true
  | Dir _ _ => Ok false
  | Other _ => Ok false
  | NoStat _ err => Raised err
  end.

(** [path.read_text()] on an entry the caller found to be a file. *)
Definition read_text (e : entry) : read_result :=
  match e with
  | File _ data => data
  | _ => Unreadable (lit "Is a directory")
  end.

(** The entries below [e] when [e] is a directory of [dir]: its own
    entries first, then what lies below each of them. *)
Fixpoint rglob_below (dir : Path) (e : entry) : list (Path * entry) :=
  match e with
  | Dir n children =>
      map (fun c => ((dir ++ [n]) ++ [entry_name c], c)) children
      ++ flat_map (rglob_below (dir ++ [n])) children
  | _ => []
  end.

(** [dir.rglob('*')]: every entry below [dir], the entries of a directory
    before those of its subdirectories, directories included. *)
Definition rglob (dir : Path) (entries : list entry) : list (Path * entry) :=
  map (fun e => (dir ++ [entry_name e], e)) entries
  ++ flat_map (rglob_below dir) entries.

(** ** The records *)

Record FileDoc : Type := mkFileDoc {
  path : str;
  description : str;
  created_date : option str;
  created_with : option str
}.

Definition project_context_text : str :=
  join [NL] (map lit [
    "";
    "Developer Tools Monorepo Context:";
    "--------------------------------";
    "This is a monorepo designed for rapid prototyping and exploration of various development tools";
    "and utilities. The project aims to provide a consistent development environment across";
    "Windows, OSX, and Linux platforms, with initial focus on Python development, cloud tools (gcloud),";
    "and version control (git).";
    "";
    "Key Features:";
    "- Cross-platform compatibility";
    "- Idempotent installations";
    "- Version management";
    "- Automated environment setup";
    "- Self-documenting codebase";
    "";
    "Initial implementation includes environment bootstrapping with cross-platform support";
    "and version-checked installations of core development tools.";
    "";
    "All generated scripts should follow the pattern that is already established,";
    "so that our automated documentation gatherer continues to be useful for";
    "sending context to LLMs for further development.";
    ""
  ]%string).

Record DocGatherer : Type := mkDocGatherer {
  root_dir : Path;
  project_context : str
}.

(** [DocGatherer.__init__] *)
Definition init (root : Path) : DocGatherer :=
  mkDocGatherer root project_context_text.

(** ** The extractor *)

Definition doc_patterns : list regex := [
  chars [DQUOTE; DQUOTE; DQUOTE] ++ [LazyGroup]
    ++ chars [DQUOTE; DQUOTE; DQUOTE];                            (* Python-style *)
  chars (lit "/**") ++ [LazyGroup] ++ chars (lit "*/");           (* C-style *)
  chars (lit "<#") ++ [LazyGroup] ++ chars (lit "#>");            (* PowerShell *)
  chars (lit "'''") ++ [WsStar; LazyGroup] ++ chars (lit "'''")   (* Alternative Python-style *)
].

Definition created_pattern : regex :=
  chars (lit "Created with ") ++ [LazyGroup] ++ chars (lit "(")
    ++ [LazyGroup] ++ chars (lit ")").

(** What a call leaves behind: its value and the lines it printed. *)
Definition printing (A : Type) : Type := (A * list str)%type.

(** The creation info found in the trimmed comment: [(created_with,
    created_date)]. *)
Definition creation_info (doc_text : str) : option str * option str :=
  match re_search created_pattern doc_text false with
  | Some created_match =>
      (Some (strip (group created_match 1)),
       Some (strip (group created_match 2)))
  | None => (None, None)
  end.

(** The body of the [try]: [inl] is the value returned, [inr] the message
    of the exception raised.  The loop over the patterns returns at the
    first pattern that matches. *)
Fixpoint try_patterns (self : DocGatherer) (file_path : Path)
    (patterns : list regex) (content : str) : (option FileDoc) + str :=
  match patterns with
  | [] => inl None
  | pattern :: patterns' =>
      match re_search pattern content true with
      | Some m =>
          let doc_text := strip (group m 1) in
          let (cw, cd) := creation_info doc_text in
          match relative_to file_path (root_dir self) with
          | Some rel =>
              inl (Some (mkFileDoc (path_str rel) doc_text cd cw))
          | None =>
              inr (lit "'" ++ path_str file_path
                   ++ lit "' is not in the subpath of '"
                   ++ path_str (root_dir self) ++ lit "'")
          end
      | None => try_patterns self file_path patterns' content
      end
  end.

Definition try_body (self : DocGatherer) (file_path : Path)
    (data : read_result) : (option FileDoc) + str :=
  match data with
  | Text content => try_patterns self file_path doc_patterns content
  | Unreadable msg => inr msg
  end.

(** [DocGatherer.extract_doc_comment]; [data] is what reading the file at
    [file_path] gives. *)
Definition extract_doc_comment (self : DocGatherer) (file_path : Path)
    (data : read_result) : printing (option FileDoc) :=
  match try_body self file_path data with
  | inl result => (result, [])
  | inr e =>
      (None, [lit "Error processing " ++ path_str file_path ++ lit ": " ++ e])
  end.

(** ** The walker *)

Definition allowed_suffixes : list str := [lit ".py"; lit ".sh"; lit ".ps1"].

(** [x in xs] for strings *)
Definition str_in (x : str) (xs : list str) : bool := existsb (str_eqb x) xs.

(** One round of the loop of [gather_docs], on the state [(docs, printed)].
    The test calls [is_file] first, outside every [try]: when it raises, so
    does the round. *)
Definition gather_step (self : DocGatherer) (st : printing (list FileDoc))
    (item : Path * entry) : result (printing (list FileDoc)) :=
  let (docs, out) := st in
  let (file_path, e) := item in
  match is_file e with
  | Raised err => Raised err
  | Ok regular =>
      if regular && str_in (suffix file_path) allowed_suffixes then
        let (doc, printed) := extract_doc_comment self file_path (read_text e) in
        match doc with
        | Some d => Ok (docs ++ [d], out ++ printed)
        | None => Ok (docs, out ++ printed)
        end
      else Ok st
  end.

(** The loop of [gather_docs] from a state on: it ends with the records, or
    with the exception of the round that raised; what was printed stays
    printed. *)
Fixpoint gather_from (self : DocGatherer) (items : list (Path * entry))
    (st : printing (list FileDoc)) : printing (result (list FileDoc)) :=
  match items with
  | [] => (Ok (fst st), snd st)
  | item :: items' =>
      match gather_step self st item with
      | Ok st' => gather_from self items' st'
      | Raised err => (Raised err, snd st)
      end
  end.

(** The loop of [gather_docs] over what [rglob] yields. *)
Definition gather_loop (self : DocGatherer) (items : list (Path * entry))
  : printing (result (list FileDoc)) :=
  gather_from self items ([], []).

(** [DocGatherer.gather_docs]; [tree] is what lies under [root_dir]. *)
Definition gather_docs (self : DocGatherer) (tree : list entry)
  : printing (result (list FileDoc)) :=
  gather_loop self (rglob (root_dir self) tree).

(** ** The formatter *)

Definition section_header : str :=
  [NL] ++ lit "File Documentation:" ++ [NL] ++ lit "-------------------".

(** The body of the loop of [format_output]: what one record appends. *)
Definition format_step (output : list str) (doc : FileDoc) : list str :=
  let output := output ++ [[NL] ++ path doc] in
  let output := output ++ [str_mul (lit "-") (length (path doc))] in
  let output := output ++ [description doc] in
  let output :=
    match created_with doc, created_date doc with
    | Some cw, Some cd =>
        if truthy cw && truthy cd then
          output ++ [[NL] ++ lit "Created with " ++ cw ++ lit " (" ++ cd ++ lit ")"]
        else output
    | _, _ => output
    end in
  output ++ [[NL]].

(** [DocGatherer.format_output] *)
Definition format_output (self : DocGatherer) (docs : list FileDoc) : str :=
  let output := [project_context self; section_header] in
  let output := fold_left format_step docs output in
  join [NL] output.

(** ** Notions used to state the properties *)

Definition all_space (s : str) : Prop := Forall (fun c => is_space c = true) s.

(** A string that neither starts nor ends with white space. *)
Definition starts_clean (s : str) : Prop :=
  match s with c :: _ => is_space c = false | [] => True end.

Definition trimmed (s : str) : Prop := starts_clean s /\ starts_clean (rev s).

(** [Matches dotall r w gs]: the pattern [r] matches exactly the text [w],
    capturing the groups [gs]. *)
Inductive Matches (dotall : bool) : regex -> str -> list str -> Prop :=
| M_nil : Matches dotall [] [] []
| M_chr c r w gs :
    Matches dotall r w gs -> Matches dotall (Chr c :: r) (c :: w) gs
| M_ws ws r w gs :
    all_space ws -> Matches dotall r w gs ->
    Matches dotall (WsStar :: r) (ws ++ w) gs
| M_group g r w gs :
    Forall (fun c => dot_matches dotall c = true) g ->
    Matches dotall r w gs ->
    Matches dotall (LazyGroup :: r) (g ++ w) (g :: gs).

(** The pattern matches somewhere in the text. *)
Definition occurs (dotall : bool) (r : regex) (s : str) : Prop :=
  exists pre w gs post, s = pre ++ w ++ post /\ Matches dotall r w gs.

(** The record built from the match [m] of a delimiter pattern. *)
Definition doc_of_match (rel : Path) (m : Match) : FileDoc :=
  let doc_text := strip (group m 1) in
  mkFileDoc (path_str rel) doc_text
            (snd (creation_info doc_text)) (fst (creation_info doc_text)).

(** The opening and closing delimiter of each pattern of [doc_patterns], in
    the same order. *)
Definition delimiters : list (str * str) := [
  ([DQUOTE; DQUOTE; DQUOTE], [DQUOTE; DQUOTE; DQUOTE]);
  (lit "/**", lit "*/");
  (lit "<#", lit "#>");
  (lit "'''", lit "'''")
].

Definition LPAREN : char := 40%N.
Definition RPAREN : char := 41%N.

Fixpoint starts_with (p s : str) : bool :=
  match p, s with
  | [], _ => true
  | x :: p', y :: s' => N.eqb y x && starts_with p' s'
  | _ :: _, [] => false
  end.

(** [s.find(needle)], counting from [pos]; [None] when there is none. *)
Fixpoint find_from (needle s : str) (pos : nat) : option nat :=
  if starts_with needle s then Some pos
  else match s with
       | [] => None
       | _ :: s' => find_from needle s' (S pos)
       end.

Definition find (needle s : str) : option nat := find_from needle s 0.

(** The text holds an annotation of the shape
    [Created with <agent>(<date>)], agent and date on one line. *)
Definition has_annotation (s : str) : Prop :=
  exists pre agent date post,
    s = pre ++ lit "Created with " ++ agent ++ [LPAREN] ++ date ++ [RPAREN] ++ post
    /\ Forall (fun c => c <> NL) agent /\ Forall (fun c => c <> NL) date.

(** The first half of the claim on annotations as the specification words
    it, for one file content. *)
Definition claimed_annotation_fields (content : str) : Prop :=
  forall self rel doc pre post,
    fst (extract_doc_comment self (root_dir self ++ rel) (Text content))
      = Some doc ->
    description doc = pre ++ lit "Created with Foo (2024-01-02)" ++ post ->
    created_with doc = Some (lit "Foo")
    /\ created_date doc = Some (lit "2024-01-02").

Definition DASH : char := 45%N.

(** The line [Created with X (Y)] of a record, after a blank line, when both
    fields are set and neither is the empty string; nothing otherwise. *)
Definition created_line (doc : FileDoc) : str :=
  match created_with doc, created_date doc with
  | Some cw, Some cd =>
      if truthy cw && truthy cd then
        [NL; NL] ++ lit "Created with " ++ cw ++ lit " (" ++ cd ++ lit ")"
      else []
  | _, _ => []
  end.

(** The text of one record in the report: a blank line, the path, the
    underline, the description, the creation line if any, a blank line. *)
Definition rendered_block (doc : FileDoc) : str :=
  [NL; NL] ++ path doc ++ [NL]
  ++ repeat DASH (length (path doc)) ++ [NL]
  ++ description doc
  ++ created_line doc
  ++ [NL; NL].

(** The claim on the creation line as the specification words it, for one
    record: when both fields are present the report shows
    [Created with X (Y)]. *)
Definition claimed_created_line (self : DocGatherer) (doc : FileDoc) : Prop :=
  forall cw cd,
    created_with doc = Some cw -> created_date doc = Some cd ->
    exists pre post,
      format_output self [doc]
      = pre ++ lit "Created with " ++ cw ++ lit " (" ++ cd ++ lit ")" ++ post.

(** Whether the loop of [gather_docs] hands the item to the extractor, for
    a list of suffixes: the test of the loop, and not when [is_file] raises
    (the loop ends there). *)
Definition visits (exts : list str) (item : Path * entry) : bool :=
  match is_file (snd item) with
  | Ok regular => regular && str_in (suffix (fst item)) exts
  | Raised _ => false
  end.

(** The error of [is_file] on an item, if it raises. *)
Definition stat_error (item : Path * entry) : option str :=
  match is_file (snd item) with
  | Ok _ => None
  | Raised err => Some err
  end.

(** The first error of [is_file] along the walk, if any. *)
Fixpoint first_stat_failure (items : list (Path * entry)) : option str :=
  match items with
  | [] => None
  | item :: items' =>
      match stat_error item with
      | Some err => Some err
      | None => first_stat_failure items'
      end
  end.

(** The items met before the first error of [is_file]. *)
Fixpoint until_stat_failure (items : list (Path * entry))
  : list (Path * entry) :=
  match items with
  | [] => []
  | item :: items' =>
      match stat_error item with
      | Some _ => []
      | None => item :: until_stat_failure items'
      end
  end.

(** The candidates of a scan: the entries under the root that pass the test
    of the loop, in the order [rglob] yields them.  They are the files the
    loop hands to the extractor when no [is_file] raises. *)
Definition walker (exts : list str) (root : Path) (tree : list entry)
  : list (Path * entry) :=
  filter (visits exts) (rglob root tree).

(** What the extractor gives for one item. *)
Definition extracted (self : DocGatherer) (item : Path * entry)
  : printing (option FileDoc) :=
  extract_doc_comment self (fst item) (read_text (snd item)).

Definition opt_list {A : Type} (o : option A) : list A :=
  match o with Some a => [a] | None => [] end.

(** [s.lower()] on ASCII letters. *)
Definition ascii_lower (c : char) : char :=
  if ((65 <=? c) && (c <=? 90))%N then (c + 32)%N else c.

Definition lower (s : str) : str := map ascii_lower s.

(** [entry_at entries rel e]: following the names of [rel] from the
    directory whose entries are [entries] leads to the entry [e]. *)
Inductive entry_at : list entry -> Path -> entry -> Prop :=
| at_here entries e :
    In e entries -> entry_at entries [entry_name e] e
| at_below entries n children rel e :
    In (Dir n children) entries -> entry_at children rel e ->
    entry_at entries (n :: rel) e.

Fixpoint distinct (l : list str) : bool :=
  match l with
  | [] => true
  | x :: l' => negb (str_in x l') && distinct l'
  end.

(** In a directory no two entries have the same name. *)
Fixpoint wf_entry (e : entry) : bool :=
  match e with
  | Dir _ children =>
      distinct (map entry_name children) && forallb wf_entry children
  | _ => true
  end.

Definition wf_tree (tree : list entry) : bool :=
  distinct (map entry_name tree) && forallb wf_entry tree.

(** Induction on entries that goes through the entries of a directory. *)
Fixpoint entry_nested_ind (P : entry -> Prop)
    (HF : forall n data, P (File n data))
    (HD : forall n children, Forall P children -> P (Dir n children))
    (HO : forall n, P (Other n))
    (HN : forall n err, P (NoStat n err))
    (e : entry) {struct e} : P e :=
  match e with
  | File n data => HF n data
  | Dir n children =>
      HD n children
         ((fix all (l : list entry) : Forall P l :=
             match l with
             | [] => Forall_nil P
             | x :: l' =>
                 Forall_cons x (@entry_nested_ind P HF HD HO HN x) (all l')
             end) children)
  | Other n => HO n
  | NoStat n err => HN n err
  end.

(** What [rglob] yields below a directory entry. *)
Definition below_spec (e : entry) : Prop :=
  forall dir p e',
    In (p, e') (rglob_below dir e) <->
    exists n children rel,
      e = Dir n children /\ p = dir ++ n :: rel /\ entry_at children rel e'.

Definition nodup_below (e : entry) : Prop :=
  forall dir, wf_entry e = true -> NoDup (map fst (rglob_below dir e)).

(** Every entry under the root can be asked for its [stat]. *)
Definition stat_ok (tree : list entry) : Prop :=
  forall rel e, entry_at tree rel e -> forall err, is_file e <> Raised err.

(** A tree with a directory that can be listed but not searched, between a
    file and another directory: the [stat] of what it holds is refused. *)
Definition locked_tree : list entry :=
  [File (lit "a.py") (Text (lit "<# A #>"));
   Dir (lit "locked")
     [NoStat (lit "b.py")
        (lit "[Errno 13] Permission denied: 'repo/locked/b.py'")];
   Dir (lit "z") [File (lit "c.sh") (Text (lit "/** C */"))]].

(** ** The entry point of the gatherer *)

(** What [pyperclip.copy] does with a text: it succeeds, or raises with a
    message. *)
Inductive copy_result : Type :=
| Copied
| CopyError (e : str).

(** [main] of [gather_docs.py]; [root] is the value of
    [Path(__file__).parent.parent.parent] and [tree] what lies under it.
    The result is the list of the texts printed and how [main] ends: with
    what was put on the clipboard, if anything, or with the exception that
    [gather_docs] raised, for which [main] has no handler. *)
Definition main (root : Path) (tree : list entry)
    (pyperclip_copy : str -> copy_result) : list str * result (option str) :=
  let gatherer := init root in
  match gather_docs gatherer tree with
  | (Raised err, printed) => (printed, Raised err)
  | (Ok docs, printed) =>
      let formatted_output := format_output gatherer docs in
      let printed := printed ++ [formatted_output] in
      match pyperclip_copy formatted_output with
      | Copied =>
          (printed
           ++ [[NL] ++ lit "Documentation has been copied to clipboard!"],
           Ok (Some formatted_output))
      | CopyError e =>
          (printed ++ [[NL] ++ lit "Couldn't copy to clipboard: " ++ e;
                       lit "Please copy the output above manually."],
           Ok None)
      end
  end.

(** The warning printed for a file that cannot be read. *)
Definition warning_line (file_path : Path) (e : str) : str :=
  lit "Error processing " ++ path_str file_path ++ lit ": " ++ e.


(** ** Processes: what the two bootstrap scripts run in

    The scripts log, run commands and leave through [sys.exit].  A function
    of a script is a state transformer that ends by returning, by raising an
    exception or by leaving the process; the state holds the commands run so
    far and the messages logged.  The outside world answers each command
    given the commands run before it and the environment variables of the
    process. *)

Module Proc.

Inductive level : Type := INFO | WARNING | ERROR.

(** An argument list with its working directory, or a shell line. *)
Inductive command : Type :=
| Exec (args : list str) (cwd : option Path)
| Shell (line : str).

(** What running a command gives: exit status 0 with its output, a non-zero
    exit status, for which [check=True] raises [CalledProcessError] whose
    text is [text], or another exception with its text. *)
Inductive run_result : Type :=
| Completed (stdout : str)
| NonZero (returncode : Z) (text : str)
| Crashed (text : str).

Record World : Type := mkWorld {
  system : str;                                  (* [platform.system().lower()] *)
  sep : str;                                     (* [os.sep] *)
  pathsep : str;                                 (* [os.pathsep] *)
  executable : str;                              (* [sys.executable] *)
  open_log : option str;                         (* the error of opening the log file, if any *)
  run : list command -> list (str * str) -> command -> run_result;
                                                 (* [subprocess.run] *)
  which : list command -> list (str * str) -> str -> option str;
                                                 (* [shutil.which] *)
  path_exists : list command -> Path -> bool     (* [Path.exists] *)
}.

Inductive exn : Type :=
| CalledProcessError (returncode : Z) (text : str)
| RuntimeError (msg : str)
| KeyError (key : str)
| OtherException (text : str).

(** [str(e)] *)
Definition exn_str (e : exn) : str :=
  match e with
  | CalledProcessError _ text => text
  | RuntimeError msg => msg
  | KeyError key => lit "'" ++ key ++ lit "'"
  | OtherException text => text
  end.

Inductive outcome (A : Type) : Type :=
| Return (a : A)
| Raise (e : exn)
| SystemExit (code : Z).

Arguments Return {A} a.
Arguments Raise {A} e.
Arguments SystemExit {A} code.

Record state : Type := mkState {
  trace : list command;              (* the commands run so far *)
  logs : list (level * str);         (* the messages logged so far *)
  environ : list (str * str);        (* [os.environ], latest binding first *)
  sys_prefix : str                   (* [sys.prefix] *)
}.

Definition M (A : Type) : Type := state -> outcome A * state.

Definition ret {A : Type} (a : A) : M A := fun st => (Return a, st).

Definition bind {A B : Type} (m : M A) (k : A -> M B) : M B :=
  fun st =>
    match m st with
    | (Return a, st') => k a st'
    | (Raise e, st') => (Raise e, st')
    | (SystemExit code, st') => (SystemExit code, st')
    end.

(** [raise e] *)
Definition raise {A : Type} (e : exn) : M A := fun st => (Raise e, st).

(** [sys.exit(code)] *)
Definition sys_exit {A : Type} (code : Z) : M A :=
  fun st => (SystemExit code, st).

(** [try: body except Exception as e: handler(e)]; a handler that does not
    name the exception raises it again.  [SystemExit] is no [Exception] and
    passes through. *)
Definition try_except {A : Type} (body : M A) (handler : exn -> M A) : M A :=
  fun st =>
    match body st with
    | (Raise e, st') => handler e st'
    | r => r
    end.

(** [logging.info], [logging.warning], [logging.error] *)
Definition log (lvl : level) (msg : str) : M unit :=
  fun st =>
    (Return tt,
     mkState (trace st) (logs st ++ [(lvl, msg)]) (environ st) (sys_prefix st)).

(** [subprocess.run(cmd, check=True)]; the value is the captured output. *)
Definition subprocess_run (w : World) (cmd : command) : M str :=
  fun st =>
    let st' := mkState (trace st ++ [cmd]) (logs st) (environ st)
                       (sys_prefix st) in
    match run w (trace st) (environ st) cmd with
    | Completed out => (Return out, st')
    | NonZero returncode text => (Raise (CalledProcessError returncode text), st')
    | Crashed text => (Raise (OtherException text), st')
    end.

(** [shutil.which(name)] *)
Definition shutil_which (w : World) (name : str) : M (option str) :=
  fun st => (Return (which w (trace st) (environ st) name), st).

(** [path.exists()] *)
Definition exists_ (w : World) (p : Path) : M bool :=
  fun st => (Return (path_exists w (trace st) p), st).

(** [d.get(key)] on the environment *)
Fixpoint lookup (key : str) (env : list (str * str)) : option str :=
  match env with
  | [] => None
  | (k, v) :: env' => if str_eqb k key then Some v else lookup key env'
  end.

(** [os.environ[key]]; a missing key raises [KeyError]. *)
Definition getenv (key : str) : M str :=
  fun st =>
    match lookup key (environ st) with
    | Some v => (Return v, st)
    | None => (Raise (KeyError key), st)
    end.

(** [os.environ[key] = value] *)
Definition setenv (key value : str) : M unit :=
  fun st =>
    (Return tt,
     mkState (trace st) (logs st) ((key, value) :: environ st) (sys_prefix st)).

(** [sys.prefix = value] *)
Definition set_sys_prefix (value : str) : M unit :=
  fun st => (Return tt, mkState (trace st) (logs st) (environ st) value).

(** [str(path)] with the separator of the platform. *)
Definition pstr (w : World) (p : Path) : str :=
  match p with
  | [] => lit "."
  | _ :: _ => join (sep w) p
  end.

(** [str(n)] for an integer. *)
Definition str_of_Z (n : Z) : str := lit (NilZero.string_of_int (Z.to_int n)).

Notation "x <- c1 ;; c2" := (bind c1 (fun x => c2))
  (at level 61, c1 at next level, right associativity).
Notation "c1 ;; c2" := (bind c1 (fun _ => c2))
  (at level 61, right associativity).

End Proc.

(** ** [init.py] *)

Module InitPy.

Import Proc.

(** [setup_logging]: opening [bootstrap.log] may fail. *)
Definition setup_logging (w : World) : M unit :=
  match open_log w with
  | None => ret tt
  | Some e => raise (OtherException e)
  end.

Definition get_platform (w : World) : M str :=
  let system := system w in
  if str_in system [lit "darwin"; lit "linux"] then ret (lit "unix")
  else if str_eqb system (lit "windows") then ret (lit "windows")
  else raise (RuntimeError (lit "Unsupported platform: " ++ system)).

(** [script_dir] is the value of [Path(__file__).parent]. *)
Definition run_platform_script (w : World) (script_dir : Path) : M unit :=
  platform_type <- get_platform w ;;
  log INFO (lit "Detected platform: " ++ platform_type) ;;
  try_except
    ((if str_eqb platform_type (lit "unix") then
        let script_path := script_dir ++ [lit "unix"; lit "setup.sh"] in
        log INFO (lit "Running Unix setup script: " ++ pstr w script_path) ;;
        subprocess_run w (Exec [lit "bash"; pstr w script_path] None)
      else
        let script_path := script_dir ++ [lit "windows"; lit "setup.ps1"] in
        log INFO (lit "Running Windows setup script: " ++ pstr w script_path) ;;
        subprocess_run w
          (Exec [lit "powershell"; lit "-ExecutionPolicy"; lit "Bypass";
                 lit "-File"; pstr w script_path] None)) ;;
     log INFO (lit "Setup completed successfully"))
    (fun e =>
       match e with
       | CalledProcessError returncode _ =>
           log ERROR (lit "Setup failed with error code " ++ str_of_Z returncode) ;;
           sys_exit 1
       | _ =>
           log ERROR (lit "Unexpected error: " ++ exn_str e) ;;
           sys_exit 1
       end).

Definition run_python_bootstrap (w : World) (script_dir : Path) : M unit :=
  let bootstrap_script := script_dir ++ [lit "python_bootstrap.py"] in
  log INFO (lit "Setting up Python environment...") ;;
  try_except
    (subprocess_run w (Exec [executable w; pstr w bootstrap_script] None) ;;
     ret tt)
    (fun e =>
       match e with
       | CalledProcessError returncode _ =>
           log ERROR (lit "Python bootstrap failed with error code "
                      ++ str_of_Z returncode) ;;
           sys_exit 1
       | _ => raise e
       end).

Definition main (w : World) (script_dir : Path) : M unit :=
  setup_logging w ;;
  try_except
    (run_platform_script w script_dir ;;
     run_python_bootstrap w script_dir ;;
     log INFO (lit "Setup completed successfully!"))
    (fun e =>
       log ERROR (lit "Setup failed: " ++ exn_str e) ;;
       sys_exit 1).

(** The command [run_platform_script] runs on this platform, if any. *)
Definition platform_command (w : World) (script_dir : Path) : option command :=
  if str_in (system w) [lit "darwin"; lit "linux"] then
    Some (Exec [lit "bash";
                pstr w (script_dir ++ [lit "unix"; lit "setup.sh"])] None)
  else if str_eqb (system w) (lit "windows") then
    Some (Exec [lit "powershell"; lit "-ExecutionPolicy"; lit "Bypass";
                lit "-File";
                pstr w (script_dir ++ [lit "windows"; lit "setup.ps1"])]
               None)
  else None.

(** The command [run_python_bootstrap] runs. *)
Definition bootstrap_command (w : World) (script_dir : Path) : command :=
  Exec [executable w; pstr w (script_dir ++ [lit "python_bootstrap.py"])] None.

End InitPy.

(** ** [python_bootstrap.py] *)

Module PythonBootstrap.

Import Proc.

Definition uv_version_command : command :=
  Exec [lit "uv"; lit "--version"] None.

Definition check_uv_installation (w : World) : M bool :=
  uv_path <- shutil_which w (lit "uv") ;;
  match uv_path with
  | Some uv_path =>
      if truthy uv_path then
        try_except
          (result <- subprocess_run w uv_version_command ;;
           log INFO (lit "Found uv at " ++ uv_path ++ lit " (version: "
                     ++ strip result ++ lit ")") ;;
           ret true)
          (fun e =>
             match e with
             | CalledProcessError _ _ =>
                 log WARNING (lit "uv found but version check failed") ;;
                 ret false
             | _ => raise e
             end)
      else ret false
  | None => ret false
  end.

Definition get_uv_install_command (w : World) : M str :=
  let system := system w in
  if str_in system [lit "linux"; lit "darwin"] then
    ret (lit "curl -LsSf https://astral.sh/uv/install.sh | sh")
  else if str_eqb system (lit "windows") then
    ret (lit "powershell -c " ++ [DQUOTE]
         ++ lit "(Invoke-WebRequest -Uri https://astral.sh/uv/install.ps1 -UseBasicParsing).Content | powershell -command -"
         ++ [DQUOTE])
  else raise (RuntimeError (lit "Unsupported platform: " ++ system)).

Definition ensure_uv_installed (w : World) : M unit :=
  installed <- check_uv_installation w ;;
  if installed then log INFO (lit "uv is already installed and working")
  else
    log INFO (lit "Installing uv...") ;;
    install_command <- get_uv_install_command w ;;
    try_except
      (subprocess_run w (Shell install_command) ;;
       verified <- check_uv_installation w ;;
       (if negb verified then
          raise (RuntimeError
                   (lit "uv installation succeeded but verification failed"))
        else ret tt) ;;
       log INFO (lit "uv installed successfully"))
      (fun e =>
         match e with
         | CalledProcessError _ _ =>
             log ERROR (lit "Failed to install uv: " ++ exn_str e) ;;
             sys_exit 1
         | _ => raise e
         end).

Definition venv_command (repo_root : Path) : command :=
  Exec [lit "uv"; lit "venv"; lit "monorepo"] (Some repo_root).

Definition setup_venv (w : World) (repo_root : Path) : M Path :=
  let venv_path := repo_root ++ [lit "monorepo"] in
  present <- exists_ w venv_path ;;
  (if negb present then
     log INFO (lit "Creating virtual environment...") ;;
     subprocess_run w (venv_command repo_root) ;;
     ret tt
   else log INFO (lit "Virtual environment already exists")) ;;
  ret venv_path.

Definition get_activation_script (w : World) (venv_path : Path) : Path :=
  let system := system w in
  if str_eqb system (lit "windows") then
    venv_path ++ [lit "Scripts"; lit "activate.bat"]
  else venv_path ++ [lit "bin"; lit "activate"].

Definition activate_venv (w : World) (venv_path : Path) : M unit :=
  let activate_script := get_activation_script w venv_path in
  present <- exists_ w activate_script ;;
  (if negb present then
     log ERROR (lit "Activation script not found: " ++ pstr w activate_script) ;;
     sys_exit 1
   else ret tt) ;;
  let venv_bin :=
    venv_path ++ [if str_eqb (system w) (lit "windows") then lit "Scripts"
                  else lit "bin"] in
  setenv (lit "VIRTUAL_ENV") (pstr w venv_path) ;;
  old_path <- getenv (lit "PATH") ;;
  setenv (lit "PATH") (pstr w venv_bin ++ pathsep w ++ old_path) ;;
  set_sys_prefix (pstr w venv_path) ;;
  log INFO (lit "Activated virtual environment at " ++ pstr w venv_path).

Definition pip_install_command (repo_root : Path) : command :=
  Exec [lit "uv"; lit "pip"; lit "install"; lit "-r"; lit "requirements.txt"]
       (Some repo_root).

Definition install_dependencies (w : World) (repo_root : Path) : M unit :=
  let requirements_file := repo_root ++ [lit "requirements.txt"] in
  present <- exists_ w requirements_file ;;
  (if negb present then
     log ERROR (lit "requirements.txt not found") ;;
     sys_exit 1
   else ret tt) ;;
  log INFO (lit "Installing dependencies with uv...") ;;
  subprocess_run w (pip_install_command repo_root) ;;
  ret tt.

(** [repo_root] is the value of [Path(__file__).parent.parent.parent]. *)
Definition main (w : World) (repo_root : Path) : M unit :=
  try_except
    (ensure_uv_installed w ;;
     venv_path <- setup_venv w repo_root ;;
     activate_venv w venv_path ;;
     install_dependencies w repo_root ;;
     log INFO (lit "Python environment setup complete!") ;;
     let system := system w in
     if str_eqb system (lit "windows") then
       log INFO ([NL] ++ lit "To activate this environment in a new shell, run:"
                 ++ [NL] ++ lit "monorepo\Scripts\activate.bat")
     else
       log INFO ([NL] ++ lit "To activate this environment in a new shell, run:"
                 ++ [NL] ++ lit "source monorepo/bin/activate"))
    (fun e =>
       log ERROR (lit "Setup failed: " ++ exn_str e) ;;
       sys_exit 1).

End PythonBootstrap.

(** ** Sample worlds *)

Module SampleWorlds.

Import Proc.

(** A Linux machine where [uv] appears once a command has been run, and
    where every path exists from then on. *)
Definition fresh_machine : World :=
  mkWorld (lit "linux") (lit "/") (lit ":") (lit "python3") None
    (fun tr env c => Completed (lit "uv 0.5.1"))
    (fun tr env n =>
       match tr with [] => None | _ => Some (lit "/home/u/.local/bin/uv") end)
    (fun tr p => match tr with [] => false | _ => true end).

(** A Linux machine where everything is in place. *)
Definition ready_machine : World :=
  mkWorld (lit "linux") (lit "/") (lit ":") (lit "python3") None
    (fun tr env c => Completed (lit "uv 0.5.1"))
    (fun tr env n => Some (lit "/usr/bin/uv"))
    (fun tr p => true).

Definition first_state : state :=
  mkState [] [] [(lit "PATH", lit "/usr/bin")] (lit "/usr").

End SampleWorlds.

(** * Properties *)

Example re_search_ex1 :
  re_search (chars (lit "<#") ++ [LazyGroup] ++ chars (lit "#>"))
            (lit "a <# b #> c #>") true
  = Some (mkMatch 2 [lit " b "] (lit " c #>")).
Proof. reflexivity. Qed.

(** ** Strings *)

Lemma str_eqb_eq (a b : str) : str_eqb a b = true <-> a = b.
Proof.
  revert b; induction a as [|x a IH]; intros [|y b]; simpl;
    try (split; [discriminate | congruence]); [tauto|].
  rewrite andb_true_iff, N.eqb_eq, IH.
  split; [intros [-> ->]; reflexivity | intros H; inversion H; auto].
Qed.

Lemma str_eqb_refl (a : str) : str_eqb a a = true.
Proof. apply str_eqb_eq; reflexivity. Qed.

Lemma str_in_In (x : str) (xs : list str) : str_in x xs = true <-> In x xs.
Proof.
  unfold str_in; rewrite existsb_exists; split.
  - intros (y & Hy & E); apply str_eqb_eq in E; subst; assumption.
  - intros H; exists x; split; [assumption | apply str_eqb_refl].
Qed.

Lemma lstrip_split (s : str) :
  exists ws, s = ws ++ lstrip s /\ all_space ws /\ starts_clean (lstrip s).
Proof.
  induction s as [|c s (ws & E & Hws & Hc)]; simpl.
  - exists []; repeat split; constructor.
  - destruct (is_space c) eqn:Hsp.
    + exists (c :: ws); repeat split; simpl; try congruence; try assumption.
      constructor; assumption.
    + exists []; repeat split; simpl; [constructor | assumption].
Qed.

Lemma lstrip_all_space (ws s : str) : all_space ws -> lstrip (ws ++ s) = lstrip s.
Proof. induction 1 as [|c ws Hc _ IH]; simpl; [|rewrite Hc]; auto. Qed.

Lemma lstrip_clean (s : str) : starts_clean s -> lstrip s = s.
Proof. destruct s as [|c s]; simpl; [|intros ->]; reflexivity. Qed.

Lemma lstrip_app_clean (s t : str) :
  s <> [] -> starts_clean s -> lstrip (s ++ t) = s ++ t.
Proof. destruct s as [|c s]; simpl; [congruence | intros _ ->; reflexivity]. Qed.

Lemma all_space_rev (s : str) : all_space s -> all_space (rev s).
Proof. unfold all_space; intros H; apply Forall_rev; assumption. Qed.

(** Trimming removes white space at both ends and nothing else. *)
Lemma strip_split (s : str) :
  exists ws1 ws2,
    s = ws1 ++ strip s ++ ws2 /\ all_space ws1 /\ all_space ws2
    /\ trimmed (strip s).
Proof.
  unfold strip, rstrip.
  destruct (lstrip_split s) as (ws1 & E1 & H1 & C1).
  destruct (lstrip_split (rev (lstrip s))) as (ws2 & E2 & H2 & C2).
  exists ws1, (rev ws2).
  assert (E3 : lstrip s = rev (lstrip (rev (lstrip s))) ++ rev ws2).
  { rewrite <- rev_app_distr, <- E2, rev_involutive; reflexivity. }
  repeat split.
  - rewrite <- E3; assumption.
  - assumption.
  - apply all_space_rev; assumption.
  - destruct (rev (lstrip (rev (lstrip s)))) as [|c t] eqn:Ec; simpl; [trivial|].
    rewrite E3 in C1; simpl in C1; assumption.
  - rewrite rev_involutive; assumption.
Qed.

Lemma strip_all_space_l (ws s : str) : all_space ws -> strip (ws ++ s) = strip s.
Proof. intros H; unfold strip; rewrite lstrip_all_space by assumption; reflexivity. Qed.

(** ** The matcher against a declarative reading of the patterns *)

Lemma match_here_ws dotall r s :
  match_here dotall (WsStar :: r) s =
  match s with
  | x :: s' =>
      if is_space x then
        match match_here dotall (WsStar :: r) s' with
        | Some res => Some res
        | None => match_here dotall r s
        end
      else match_here dotall r s
  | [] => match_here dotall r []
  end.
Proof. destruct s; reflexivity. Qed.

Lemma match_here_lazy dotall r s :
  match_here dotall (LazyGroup :: r) s =
  match match_here dotall r s with
  | Some (gs, rest) => Some ([] :: gs, rest)
  | None =>
      match s with
      | x :: s' =>
          if dot_matches dotall x then
            match match_here dotall (LazyGroup :: r) s' with
            | Some (g :: gs, rest) => Some ((x :: g) :: gs, rest)
            | _ => None
            end
          else None
      | [] => None
      end
  end.
Proof. destruct s; reflexivity. Qed.

Lemma match_here_sound dotall r :
  forall s gs rest,
    match_here dotall r s = Some (gs, rest) ->
    exists w, s = w ++ rest /\ Matches dotall r w gs.
Proof.
  induction r as [|a r IH]; intros s gs rest.
  - simpl; intros H; inversion H; subst; exists []; split; [reflexivity | constructor].
  - destruct a.
    + destruct s as [|x s]; simpl; [discriminate|].
      destruct (N.eqb_spec x c) as [->|]; [|discriminate].
      intros H; apply IH in H as (w & -> & Hw).
      exists (c :: w); split; [reflexivity | constructor; assumption].
    + revert gs rest; induction s as [|x s IHs]; intros gs rest;
        rewrite match_here_ws.
      * intros H; apply IH in H as (w & E & Hw).
        exists w; split; [assumption|].
        apply (M_ws (ws := [])); [constructor | assumption].
      * assert (Hskip : match_here dotall r (x :: s) = Some (gs, rest) ->
                        exists w, x :: s = w ++ rest
                                  /\ Matches dotall (WsStar :: r) w gs).
        { intros H; apply IH in H as (w & E & Hw).
          exists w; split; [assumption|].
          apply (M_ws (ws := [])); [constructor | assumption]. }
        destruct (is_space x) eqn:Hx; [|exact Hskip].
        destruct (match_here dotall (WsStar :: r) s) as [res|] eqn:Hg;
          [|exact Hskip].
        intros H; inversion H; subst res.
        destruct (IHs _ _ eq_refl) as (w & -> & Hw).
        inversion Hw; subst.
        exists ((x :: ws) ++ w0); split; [reflexivity|].
        constructor; [constructor; assumption | assumption].
    + revert gs rest; induction s as [|x s IHs]; intros gs rest;
        rewrite match_here_lazy.
      * destruct (match_here dotall r []) as [[gs' rest']|] eqn:Hr; [|discriminate].
        intros H; inversion H; subst.
        apply IH in Hr as (w & E & Hw).
        exists w; split; [assumption|].
        apply (M_group (g := [])); [constructor | assumption].
      * destruct (match_here dotall r (x :: s)) as [[gs' rest']|] eqn:Hr.
        { intros H; inversion H; subst.
          apply IH in Hr as (w & E & Hw).
          exists w; split; [assumption|].
          apply (M_group (g := [])); [constructor | assumption]. }
        destruct (dot_matches dotall x) eqn:Hx; [|discriminate].
        destruct (match_here dotall (LazyGroup :: r) s)
          as [[[|g gs'] rest']|] eqn:Hl; try discriminate.
        intros H; inversion H; subst.
        destruct (IHs _ _ eq_refl) as (w & -> & Hw).
        inversion Hw; subst.
        exists ((x :: g) ++ w0); split; [reflexivity|].
        constructor; [constructor; assumption | assumption].
Qed.

Lemma match_here_complete dotall r w gs :
  Matches dotall r w gs ->
  forall rest, match_here dotall r (w ++ rest) <> None.
Proof.
  induction 1 as [|c r w gs _ IH|ws r w gs Hws _ IH|g r w gs Hg _ IH]; intros rest.
  - simpl; discriminate.
  - simpl; rewrite N.eqb_refl; apply IH.
  - rewrite <- app_assoc.
    induction Hws as [|x ws Hx _ IHws]; simpl app; rewrite match_here_ws.
    + specialize (IH rest).
      destruct (w ++ rest) as [|y t]; [assumption|].
      destruct (is_space y); [|assumption].
      destruct (match_here dotall (WsStar :: r) t); [discriminate | assumption].
    + rewrite Hx.
      destruct (match_here dotall (WsStar :: r) (ws ++ w ++ rest));
        [discriminate | contradiction].
  - rewrite <- app_assoc.
    induction Hg as [|x g Hx _ IHg]; simpl app; rewrite match_here_lazy.
    + specialize (IH rest).
      destruct (match_here dotall r (w ++ rest)) as [[gs' rest']|];
        [discriminate | contradiction].
    + destruct (match_here dotall r (x :: g ++ w ++ rest)) as [[gs' rest']|];
        [discriminate|].
      rewrite Hx.
      destruct (match_here dotall (LazyGroup :: r) (g ++ w ++ rest))
        as [[gs' rest']|] eqn:Hl; [|contradiction].
      apply match_here_sound in Hl as (w' & _ & Hw'); inversion Hw'; subst.
      discriminate.
Qed.

(** [re.search] returns the leftmost place where the pattern matches. *)
Lemma search_from_sound dotall r :
  forall s pos m,
    search_from dotall r pos s = Some m ->
    exists pre w,
      s = pre ++ w ++ m_rest m /\ m_start m = pos + length pre
      /\ Matches dotall r w (m_groups m)
      /\ forall pre' w' gs' post',
           s = pre' ++ w' ++ post' -> Matches dotall r w' gs' ->
           length pre <= length pre'.
Proof.
  induction s as [|x s IH]; intros pos m; simpl.
  - destruct (match_here dotall r []) as [[gs rest]|] eqn:Hm; [|discriminate].
    intros H; inversion H; subst; simpl.
    apply match_here_sound in Hm as (w & E & Hw).
    exists [], w; repeat split; simpl; auto with arith.
  - destruct (match_here dotall r (x :: s)) as [[gs rest]|] eqn:Hm.
    + intros H; inversion H; subst; simpl.
      apply match_here_sound in Hm as (w & E & Hw).
      exists [], w; repeat split; simpl; auto with arith.
    + intros H; apply IH in H as (pre & w & E & Hs & Hw & Hmin).
      exists (x :: pre), w; repeat split; simpl.
      * rewrite E at 1; reflexivity.
      * lia.
      * assumption.
      * intros [|y pre'] w' gs' post' E' Hw'.
        { simpl in E'; rewrite E' in Hm.
          exfalso; exact (match_here_complete Hw' post' Hm). }
        simpl in E'; inversion E'; subst y.
        simpl; apply le_n_S; eapply Hmin; eauto.
Qed.

Lemma search_from_complete dotall r s :
  occurs dotall r s -> forall pos, search_from dotall r pos s <> None.
Proof.
  intros (pre & w & gs & post & -> & Hw).
  induction pre as [|x pre IH]; intros pos.
  - simpl app.
    pose proof (match_here_complete Hw post) as Hc.
    destruct (w ++ post) as [|y t]; simpl;
      destruct (match_here dotall r _) as [[gs' rest]|]; try discriminate;
      contradiction.
  - simpl.
    destruct (match_here dotall r (x :: pre ++ w ++ post)) as [[gs' rest]|];
      [discriminate | apply IH].
Qed.

Lemma re_search_none dotall r s :
  re_search r s dotall = None <-> ~ occurs dotall r s.
Proof.
  unfold re_search; split.
  - intros H Ho; exact (search_from_complete Ho 0 H).
  - intros Hn; destruct (search_from dotall r 0 s) as [m|] eqn:Hs; [|reflexivity].
    exfalso; apply Hn.
    apply search_from_sound in Hs as (pre & w & E & _ & Hw & _).
    exists pre, w, (m_groups m), (m_rest m); split; assumption.
Qed.

Lemma re_search_some_occurs dotall r s m :
  re_search r s dotall = Some m -> occurs dotall r s.
Proof.
  intros H; destruct (search_from_sound _ _ _ _ H) as (pre & w & E & _ & Hw & _).
  exists pre, w, (m_groups m), (m_rest m); split; assumption.
Qed.

Lemma matches_chars dotall a :
  forall r w gs,
    Matches dotall (chars a ++ r) w gs ->
    exists w', w = a ++ w' /\ Matches dotall r w' gs.
Proof.
  induction a as [|c a IH]; intros r w gs H; simpl in H.
  - exists w; split; [reflexivity | assumption].
  - inversion H; subst.
    match goal with Hm : Matches _ (chars a ++ r) _ _ |- _ =>
      apply IH in Hm as (w' & -> & Hw') end.
    exists w'; split; [reflexivity | assumption].
Qed.

Lemma matches_nil dotall w gs : Matches dotall [] w gs -> w = [] /\ gs = [].
Proof. inversion 1; split; reflexivity. Qed.

(** What a pattern [opening(.*?)closing] matches. *)
Lemma matches_delimited dotall o c w gs :
  Matches dotall (chars o ++ [LazyGroup] ++ chars c) w gs ->
  exists g, w = o ++ g ++ c /\ gs = [g].
Proof.
  intros H; apply matches_chars in H as (w1 & -> & H).
  simpl in H; inversion H; subst.
  match goal with Hm : Matches _ (chars c) _ _ |- _ =>
    rewrite <- (app_nil_r (chars c)) in Hm;
    apply matches_chars in Hm as (w2 & -> & Hm);
    apply matches_nil in Hm as [-> ->] end.
  exists g; rewrite app_nil_r; split; reflexivity.
Qed.

(** What a pattern [opening\s*(.*?)closing] matches. *)
Lemma matches_delimited_ws dotall o c w gs :
  Matches dotall (chars o ++ [WsStar; LazyGroup] ++ chars c) w gs ->
  exists ws g, w = o ++ (ws ++ g) ++ c /\ gs = [g] /\ all_space ws.
Proof.
  intros H; apply matches_chars in H as (w1 & -> & H).
  simpl in H; inversion H; subst.
  match goal with Hm : Matches _ (LazyGroup :: _) _ _ |- _ =>
    inversion Hm; subst end.
  match goal with Hm : Matches _ (chars c) _ _ |- _ =>
    rewrite <- (app_nil_r (chars c)) in Hm;
    apply matches_chars in Hm as (w2 & -> & Hm);
    apply matches_nil in Hm as [-> ->] end.
  exists ws, g; rewrite app_nil_r, <- app_assoc; repeat split; assumption.
Qed.

Lemma starts_with_app (a t : str) : starts_with a (a ++ t) = true.
Proof. induction a as [|x a IH]; simpl; [|rewrite N.eqb_refl]; auto. Qed.

Lemma match_here_chars dotall a r :
  forall s,
    match_here dotall (chars a ++ r) s =
    if starts_with a s then match_here dotall r (skipn (length a) s) else None.
Proof.
  induction a as [|x a IH]; intros s; simpl; [reflexivity|].
  destruct s as [|y s]; [reflexivity|].
  destruct (N.eqb y x); simpl; [apply IH | reflexivity].
Qed.

Lemma matches_chars_intro dotall a r w gs :
  Matches dotall r w gs -> Matches dotall (chars a ++ r) (a ++ w) gs.
Proof. intros H; induction a; simpl; [|constructor]; assumption. Qed.

Lemma match_here_lazy_shortest dotall r :
  forall s g gs rest,
    match_here dotall (LazyGroup :: r) s = Some (g :: gs, rest) ->
    forall k, k < length g -> match_here dotall r (skipn k s) = None.
Proof.
  induction s as [|x s IH]; intros g gs rest; rewrite match_here_lazy.
  - destruct (match_here dotall r []) as [[gs' rest']|]; [|discriminate].
    intros H; inversion H; subst; simpl; intros k Hk; lia.
  - destruct (match_here dotall r (x :: s)) as [[gs' rest']|] eqn:Hr.
    { intros H; inversion H; subst; simpl; intros k Hk; lia. }
    destruct (dot_matches dotall x); [|discriminate].
    destruct (match_here dotall (LazyGroup :: r) s)
      as [[[|g' gs'] rest']|] eqn:Hl; try discriminate.
    intros H; inversion H; subst.
    intros [|k] Hk; [exact Hr|].
    simpl in Hk |- *; eapply IH; [reflexivity | lia].
Qed.

Lemma match_here_ws_inv dotall r :
  forall s res,
    match_here dotall (WsStar :: r) s = Some res ->
    exists ws s', s = ws ++ s' /\ all_space ws /\ match_here dotall r s' = Some res.
Proof.
  induction s as [|x s IH]; intros res; rewrite match_here_ws.
  - intros H; exists [], []; repeat split; [constructor | assumption].
  - assert (Hskip : match_here dotall r (x :: s) = Some res ->
                    exists ws s', x :: s = ws ++ s' /\ all_space ws
                                  /\ match_here dotall r s' = Some res).
    { intros H; exists [], (x :: s); repeat split; [constructor | assumption]. }
    destruct (is_space x) eqn:Hx; [|exact Hskip].
    destruct (match_here dotall (WsStar :: r) s) as [res'|] eqn:Hg; [|exact Hskip].
    intros H; inversion H; subst res'.
    destruct (IH _ eq_refl) as (ws & s' & -> & Hws & Hm).
    exists (x :: ws), s'; repeat split; [constructor|]; assumption.
Qed.

Lemma match_here_chars_only dotall c s :
  match_here dotall (chars c) s =
  if starts_with c s then Some ([], skipn (length c) s) else None.
Proof.
  rewrite <- (app_nil_r (chars c)), match_here_chars; reflexivity.
Qed.

Lemma search_from_match_here dotall r :
  forall s pos m,
    search_from dotall r pos s = Some m ->
    exists pre s',
      s = pre ++ s' /\ match_here dotall r s' = Some (m_groups m, m_rest m).
Proof.
  induction s as [|x s IH]; intros pos m; simpl.
  - destruct (match_here dotall r []) as [[gs rest]|] eqn:Hm; [|discriminate].
    intros H; inversion H; subst; exists [], []; split; [reflexivity | exact Hm].
  - destruct (match_here dotall r (x :: s)) as [[gs rest]|] eqn:Hm.
    + intros H; inversion H; subst; exists [], (x :: s); split;
        [reflexivity | exact Hm].
    + intros H; apply IH in H as (pre & s' & -> & Hs).
      exists (x :: pre), s'; split; [reflexivity | exact Hs].
Qed.

(** The text captured before a closing delimiter does not hold that
    delimiter. *)
Lemma lazy_group_no_closer dotall c s g gs rest :
  c <> [] ->
  match_here dotall (LazyGroup :: chars c) s = Some (g :: gs, rest) ->
  forall pre post, g <> pre ++ c ++ post.
Proof.
  intros Hc Hm pre post ->.
  pose proof (match_here_lazy_shortest _ _ _ Hm (k := length pre)) as Hk.
  destruct (match_here_sound _ _ _ Hm) as (w & -> & Hw).
  inversion Hw as [| | |g0 r0 w0 gs0 _ Hw0]; subst.
  assert (Hlt : length pre < length (pre ++ c ++ post)).
  { rewrite !length_app; destruct c; [contradiction | simpl; lia]. }
  specialize (Hk Hlt).
  replace (((pre ++ c ++ post) ++ w0) ++ rest)
    with (pre ++ c ++ (post ++ w0 ++ rest)) in Hk
    by (rewrite <- !app_assoc; reflexivity).
  rewrite skipn_app, skipn_all, Nat.sub_diag in Hk; simpl in Hk.
  rewrite match_here_chars_only, starts_with_app in Hk; discriminate.
Qed.

Lemma strip_contains (s pre c post : str) :
  strip s = pre ++ c ++ post -> exists pre' post', s = pre' ++ c ++ post'.
Proof.
  intros E; destruct (strip_split s) as (ws1 & ws2 & Es & _).
  exists (ws1 ++ pre), (post ++ ws2).
  rewrite Es at 1; rewrite E, <- !app_assoc; reflexivity.
Qed.

Lemma starts_with_split (a s : str) :
  starts_with a s = true -> s = a ++ skipn (length a) s.
Proof.
  revert s; induction a as [|x a IH]; intros [|y s]; simpl;
    try reflexivity; try discriminate.
  rewrite andb_true_iff, N.eqb_eq; intros [-> H].
  rewrite <- (IH s H); reflexivity.
Qed.

(** Where [re.search] finds its match: at the first place where the matcher
    anchored there succeeds. *)
Lemma search_from_here dotall r :
  forall s pos m,
    search_from dotall r pos s = Some m ->
    exists pre s',
      s = pre ++ s' /\ m_start m = pos + length pre
      /\ match_here dotall r s' = Some (m_groups m, m_rest m)
      /\ forall pre' w' gs' post',
           s = pre' ++ w' ++ post' -> Matches dotall r w' gs' ->
           length pre <= length pre'.
Proof.
  induction s as [|x s IH]; intros pos m; simpl.
  - destruct (match_here dotall r []) as [[gs rest]|] eqn:Hm; [|discriminate].
    intros H; inversion H; subst; simpl.
    exists [], []; repeat split; simpl; auto with arith.
  - destruct (match_here dotall r (x :: s)) as [[gs rest]|] eqn:Hm.
    + intros H; inversion H; subst; simpl.
      exists [], (x :: s); repeat split; simpl; auto with arith.
    + intros H; apply IH in H as (pre & s' & E & Hs & Hh & Hmin).
      exists (x :: pre), s'; repeat split; simpl.
      * rewrite E at 1; reflexivity.
      * lia.
      * assumption.
      * intros [|y pre'] w' gs' post' E' Hw'.
        { simpl in E'; rewrite E' in Hm.
          exfalso; exact (match_here_complete Hw' post' Hm). }
        simpl in E'; inversion E'; subst y.
        simpl; apply le_n_S; eapply Hmin; eauto.
Qed.

Lemma matches_chars_only dotall c : Matches dotall (chars c) c [].
Proof.
  pose proof (@matches_chars_intro dotall c [] [] [] (M_nil dotall)) as H.
  rewrite !app_nil_r in H; exact H.
Qed.

(** White space in front of a capture brings no closing delimiter in, when
    the delimiter does not start with white space. *)
Lemma no_closer_after_space (ws g c : str) (x : char) (c' : str) :
  c = x :: c' -> is_space x = false -> all_space ws ->
  (forall a b, g <> a ++ c ++ b) ->
  forall a b, ws ++ g <> a ++ c ++ b.
Proof.
  intros -> Hx Hws Hg; induction Hws as [|y ws Hy _ IH]; [exact Hg|].
  intros [|z a] b E.
  - simpl in E; inversion E; subst; congruence.
  - simpl in E; inversion E; subst; eapply IH; eassumption.
Qed.

(** What the matcher finds for a pattern [opening(.*?)closing], with or
    without [\s*] in front of the group: the text between the delimiters,
    which does not hold the closing delimiter, and the group, which is that
    text without the white space in front of it. *)
Lemma match_here_delimited (with_ws : bool) (o c : str) (x : char) (c' : str) :
  c = x :: c' -> is_space x = false ->
  forall s gs rest,
    match_here true
      (chars o ++ (if with_ws then [WsStar] else []) ++ LazyGroup :: chars c) s
      = Some (gs, rest) ->
    exists between g,
      s = o ++ between ++ c ++ rest
      /\ gs = [g]
      /\ strip between = strip g
      /\ forall a b, between <> a ++ c ++ b.
Proof.
  intros Ec Hx s gs rest Hm.
  assert (Hc : c <> []) by (rewrite Ec; discriminate).
  pose proof (fun ws g => @no_closer_after_space ws g c x c' Ec Hx) as Hsp.
  clear Ec Hx.
  rewrite match_here_chars in Hm.
  destruct (starts_with o s) eqn:Ho; [|discriminate].
  apply starts_with_split in Ho; rewrite Ho; clear Ho.
  assert (Hlazy : forall s1,
             match_here true (LazyGroup :: chars c) s1 = Some (gs, rest) ->
             exists g, s1 = g ++ c ++ rest /\ gs = [g]
                       /\ forall a b, g <> a ++ c ++ b).
  { intros s1 H1.
    destruct (match_here_sound _ _ _ H1) as (w & -> & Hw).
    inversion Hw as [| | |g r0 w0 gs0 _ Hw0]; subst.
    rewrite <- (app_nil_r (chars c)) in Hw0.
    apply matches_chars in Hw0 as (w1 & -> & Hw1).
    apply matches_nil in Hw1 as [-> ->].
    exists g; repeat split.
    - rewrite app_nil_r, <- app_assoc; reflexivity.
    - eapply lazy_group_no_closer; eassumption. }
  destruct with_ws; cbn [app] in Hm.
  - apply match_here_ws_inv in Hm as (ws & s1 & E & Hws & Hm).
    apply Hlazy in Hm as (g & -> & -> & Hg).
    exists (ws ++ g), g; repeat split.
    + rewrite E, <- !app_assoc; reflexivity.
    + apply strip_all_space_l; assumption.
    + apply Hsp; assumption.
  - apply Hlazy in Hm as (g & E & -> & Hg).
    exists g, g; repeat split; [|assumption].
    rewrite E; reflexivity.
Qed.

(** Every text [opening ++ between ++ closing] is matched by the pattern. *)
Lemma matches_delimited_intro (with_ws : bool) (o c between : str) :
  Matches true
    (chars o ++ (if with_ws then [WsStar] else []) ++ LazyGroup :: chars c)
    (o ++ between ++ c) [between].
Proof.
  apply matches_chars_intro.
  assert (H : Matches true (LazyGroup :: chars c) (between ++ c) [between]).
  { constructor; [|apply matches_chars_only].
    apply Forall_forall; intros y _; reflexivity. }
  destruct with_ws; cbn [app]; [|exact H].
  apply (M_ws (ws := [])); [constructor | exact H].
Qed.

(** ** The extractor *)

Lemma relative_to_app (root rel : Path) : relative_to (root ++ rel) root = Some rel.
Proof.
  induction root as [|r root IH]; simpl; [reflexivity|].
  rewrite str_eqb_refl; exact IH.
Qed.

Lemma try_patterns_first self rel content patterns :
  forall i pattern m,
    nth_error patterns i = Some pattern ->
    re_search pattern content true = Some m ->
    (forall k q, k < i -> nth_error patterns k = Some q ->
                 re_search q content true = None) ->
    try_patterns self (root_dir self ++ rel) patterns content
    = inl (Some (doc_of_match rel m)).
Proof.
  induction patterns as [|p ps IH]; intros [|i] pattern m Hn Hs Hlow;
    simpl in Hn; try discriminate.
  - inversion Hn; subst p; simpl; rewrite Hs, relative_to_app.
    unfold doc_of_match; destruct (creation_info _); reflexivity.
  - simpl; rewrite (Hlow 0 p) by (simpl; auto with arith).
    apply (IH i pattern m Hn Hs).
    intros k q Hk Hq; apply (Hlow (S k) q); [lia | exact Hq].
Qed.

Lemma try_patterns_none self file_path content patterns :
  (forall q, In q patterns -> re_search q content true = None) ->
  try_patterns self file_path patterns content = inl None.
Proof.
  induction patterns as [|p ps IH]; intros H; simpl; [reflexivity|].
  rewrite (H p) by (left; reflexivity).
  apply IH; intros q Hq; apply H; right; assumption.
Qed.

(** Each pattern is its opening delimiter, the capture, with [\s*] in front
    of it for the last pattern, and its closing delimiter, which does not
    start with white space. *)
Lemma doc_pattern_shape (i : nat) (pattern : regex) :
  nth_error doc_patterns i = Some pattern ->
  exists (with_ws : bool) o c x c',
    pattern
    = chars o ++ (if with_ws then [WsStar] else []) ++ LazyGroup :: chars c
    /\ nth_error delimiters i = Some (o, c)
    /\ c = x :: c' /\ is_space x = false.
Proof.
  unfold doc_patterns.
  destruct i as [|[|[|[|i]]]]; cbn [nth_error];
    try (destruct i; discriminate); intros H; injection H as <-.
  - exists false, [DQUOTE; DQUOTE; DQUOTE], [DQUOTE; DQUOTE; DQUOTE],
      DQUOTE, [DQUOTE; DQUOTE]; repeat split.
  - exists false, (lit "/**"), (lit "*/"), 42%N, [47%N]; repeat split.
  - exists false, (lit "<#"), (lit "#>"), 35%N, [62%N]; repeat split.
  - exists true, (lit "'''"), (lit "'''"), 39%N, [39%N; 39%N]; repeat split.
Qed.

(** C1. When the text contains matches for several delimiter patterns, the
    extractor uses the one that comes first in the priority order (triple
    double quote, C-style, angle-hash, triple single quote): the record is
    built from the pattern of least index that matches anywhere, whatever
    the later patterns match and wherever they match.  Only the first
    occurrence of that pattern is used: the text splits at the place where
    the search found the match into what precedes, the opening delimiter,
    the text between the delimiters, the closing delimiter and what
    follows; no opening delimiter followed by a closing one starts earlier
    in the text, the text between the delimiters does not hold the closing
    delimiter, and the description is that text, trimmed. *)
Theorem extract_priority_order :
  forall self rel content i pattern,
    nth_error doc_patterns i = Some pattern ->
    occurs true pattern content ->
    (forall k q, k < i -> nth_error doc_patterns k = Some q ->
                 ~ occurs true q content) ->
    exists m doc opening closing pre between post,
      re_search pattern content true = Some m
      /\ nth_error delimiters i = Some (opening, closing)
      /\ content = pre ++ opening ++ between ++ closing ++ post
      /\ length pre = m_start m
      /\ (forall pre' between' post',
             content = pre' ++ opening ++ between' ++ closing ++ post' ->
             length pre <= length pre')
      /\ (forall a b, between <> a ++ closing ++ b)
      /\ extract_doc_comment self (root_dir self ++ rel) (Text content)
         = (Some doc, [])
      /\ description doc = strip between
      /\ description doc = strip (group m 1).
Proof.
  intros self rel content i pattern Hn Ho Hlow.
  destruct (re_search pattern content true) as [m|] eqn:Hs;
    [|apply re_search_none in Hs; contradiction].
  assert (Hx : extract_doc_comment self (root_dir self ++ rel) (Text content)
               = (Some (doc_of_match rel m), [])).
  { unfold extract_doc_comment, try_body.
    rewrite (try_patterns_first self rel content doc_patterns Hn Hs);
      [reflexivity|].
    intros k q Hk Hq; apply re_search_none; eauto. }
  destruct (search_from_here _ _ _ _ Hs) as (pre & s' & E & Hst & Hm & Hmin).
  destruct (doc_pattern_shape _ Hn)
    as (with_ws & o & c & x & c' & -> & Hd & Ec & Hsp).
  destruct (match_here_delimited with_ws o Ec Hsp _ Hm)
    as (between & g & -> & Hg & Hstrip & Hfree).
  exists m, (doc_of_match rel m), o, c, pre, between, (m_rest m).
  assert (Egroup : strip (group m 1) = strip between).
  { unfold group; rewrite Hg; cbn [Nat.sub nth]; symmetry; exact Hstrip. }
  split; [reflexivity|].
  split; [exact Hd|].
  split; [exact E|].
  split; [rewrite Hst; reflexivity|].
  split.
  { intros pre' between' post' E'.
    apply (Hmin pre' (o ++ between' ++ c) [between'] post').
    - rewrite E', <- !app_assoc; reflexivity.
    - apply matches_delimited_intro. }
  split; [exact Hfree|].
  split; [exact Hx|].
  split; [exact Egroup | reflexivity].
Qed.

Lemma extract_priority_order_witness :
  exists m doc opening closing pre between post,
    re_search (chars (lit "/**") ++ [LazyGroup] ++ chars (lit "*/"))
              (lit "''' a ''' /** b */ /** c */") true = Some m
    /\ nth_error delimiters 1 = Some (opening, closing)
    /\ lit "''' a ''' /** b */ /** c */"
       = pre ++ opening ++ between ++ closing ++ post
    /\ length pre = m_start m
    /\ (forall pre' between' post',
           lit "''' a ''' /** b */ /** c */"
           = pre' ++ opening ++ between' ++ closing ++ post' ->
           length pre <= length pre')
    /\ (forall a b, between <> a ++ closing ++ b)
    /\ extract_doc_comment (init [lit "repo"]) ([lit "repo"] ++ [lit "x.py"])
                           (Text (lit "''' a ''' /** b */ /** c */"))
       = (Some doc, [])
    /\ description doc = strip between
    /\ description doc = strip (group m 1).
Proof.
  apply (@extract_priority_order (init [lit "repo"]) [lit "x.py"]
           (lit "''' a ''' /** b */ /** c */") 1
           (chars (lit "/**") ++ [LazyGroup] ++ chars (lit "*/"))).
  - reflexivity.
  - eapply re_search_some_occurs; vm_compute; reflexivity.
  - intros k q Hk Hq; destruct k as [|k]; [|lia].
    simpl in Hq; inversion Hq; subst q.
    apply re_search_none; vm_compute; reflexivity.
Defined.


(** The later pattern is used although it comes first in the text. *)
Example priority_not_position :
  fst (extract_doc_comment (init [lit "repo"]) [lit "repo"; lit "x.py"]
         (Text (lit "''' a ''' /** b */")))
  = Some (mkFileDoc (lit "x.py") (lit "b") None None).
Proof. vm_compute; reflexivity. Qed.

Lemma try_patterns_inv self file_path content doc patterns :
  try_patterns self file_path patterns content = inl (Some doc) ->
  exists i pattern m rel,
    nth_error patterns i = Some pattern
    /\ re_search pattern content true = Some m
    /\ (forall k q, k < i -> nth_error patterns k = Some q ->
                    re_search q content true = None)
    /\ relative_to file_path (root_dir self) = Some rel
    /\ doc = doc_of_match rel m.
Proof.
  induction patterns as [|p ps IH]; simpl; [discriminate|].
  destruct (re_search p content true) as [m|] eqn:Hs.
  - destruct (creation_info (strip (group m 1))) as [cw cd] eqn:Hc.
    destruct (relative_to file_path (root_dir self)) as [rel|] eqn:Hr;
      [|discriminate].
    intros H; inversion H; subst doc.
    exists 0, p, m, rel; repeat split; auto.
    + intros k q Hk; lia.
    + unfold doc_of_match; rewrite Hc; reflexivity.
  - intros H; apply IH in H as (i & pattern & m & rel & Hn & Hm & Hlow & Hr & E).
    exists (S i), pattern, m, rel; repeat split; auto.
    intros [|k] q Hk Hq; simpl in Hq.
    + inversion Hq; subst; assumption.
    + apply (Hlow k q); [lia | assumption].
Qed.

Lemma extract_some_inv self file_path data doc :
  fst (extract_doc_comment self file_path data) = Some doc ->
  exists content rel m,
    data = Text content
    /\ relative_to file_path (root_dir self) = Some rel
    /\ doc = doc_of_match rel m.
Proof.
  unfold extract_doc_comment, try_body.
  destruct data as [content|msg]; [|simpl; discriminate].
  destruct (try_patterns self file_path doc_patterns content) as [[d|]|e] eqn:Ht;
    cbn [fst]; try discriminate.
  intros H; inversion H; subst d.
  apply try_patterns_inv in Ht as (i & p & m & rel & _ & _ & _ & Hr & E).
  exists content, rel, m; repeat split; assumption.
Qed.

(** C2. When the text contains a match for exactly one of the four
    delimiter patterns, the extractor returns a record whose description is
    the text between that pattern's delimiters, trimmed: the text between
    the delimiters is the description with white space before and after it,
    and nothing inside the description is changed. *)
Theorem extract_single_pattern :
  forall self rel content i pattern,
    nth_error doc_patterns i = Some pattern ->
    occurs true pattern content ->
    (forall k q, k <> i -> nth_error doc_patterns k = Some q ->
                 ~ occurs true q content) ->
    exists doc m opening closing pre between post ws1 ws2,
      extract_doc_comment self (root_dir self ++ rel) (Text content)
        = (Some doc, [])
      /\ re_search pattern content true = Some m
      /\ description doc = strip (group m 1)
      /\ nth_error delimiters i = Some (opening, closing)
      /\ content = pre ++ opening ++ between ++ closing ++ post
      /\ description doc = strip between
      /\ between = ws1 ++ description doc ++ ws2
      /\ all_space ws1 /\ all_space ws2
      /\ trimmed (description doc).
Proof.
  intros self rel content i pattern Hn Ho Hother.
  destruct (re_search pattern content true) as [m|] eqn:Hs;
    [|apply re_search_none in Hs; contradiction].
  assert (Hx : extract_doc_comment self (root_dir self ++ rel) (Text content)
               = (Some (doc_of_match rel m), [])).
  { unfold extract_doc_comment, try_body.
    rewrite (try_patterns_first self rel content doc_patterns Hn Hs);
      [reflexivity|].
    intros k q Hk Hq; apply re_search_none; apply (Hother k q); [lia | exact Hq]. }
  destruct (search_from_sound _ _ _ _ Hs) as (pre & w & E & _ & Hw & _).
  assert (Hb : exists opening closing between,
             nth_error delimiters i = Some (opening, closing)
             /\ w = opening ++ between ++ closing
             /\ strip between = strip (group m 1)).
  { unfold group; cbn [Nat.sub nth].
    unfold doc_patterns in Hn.
    destruct i as [|[|[|[|i]]]]; cbn [nth_error] in Hn;
      try (destruct i; discriminate); injection Hn as <-.
    - apply (@matches_delimited true [DQUOTE; DQUOTE; DQUOTE]
               [DQUOTE; DQUOTE; DQUOTE]) in Hw as (g & -> & ->).
      do 3 eexists; repeat split.
    - apply (@matches_delimited true (lit "/**") (lit "*/")) in Hw
        as (g & -> & ->).
      do 3 eexists; repeat split.
    - apply (@matches_delimited true (lit "<#") (lit "#>")) in Hw
        as (g & -> & ->).
      do 3 eexists; repeat split.
    - apply (@matches_delimited_ws true (lit "'''") (lit "'''")) in Hw
        as (ws & g & -> & -> & Hws).
      do 3 eexists; repeat split.
      cbn [nth]; apply strip_all_space_l; assumption. }
  destruct Hb as (opening & closing & between & Hd & -> & Hst).
  destruct (strip_split between) as (ws1 & ws2 & Eb & H1 & H2 & Ht).
  exists (doc_of_match rel m), m, opening, closing, pre, between, (m_rest m),
    ws1, ws2.
  simpl; rewrite <- Hst.
  repeat split; try assumption; try (destruct Ht; assumption).
  rewrite E, <- !app_assoc; reflexivity.
Qed.

Lemma extract_single_pattern_witness :
  exists doc m opening closing pre between post ws1 ws2,
    extract_doc_comment (init [lit "repo"]) ([lit "repo"] ++ [lit "x.ps1"])
                        (Text (lit "# x <#  Sets up  the shell. #> done"))
      = (Some doc, [])
    /\ re_search (chars (lit "<#") ++ [LazyGroup] ++ chars (lit "#>"))
                 (lit "# x <#  Sets up  the shell. #> done") true = Some m
    /\ description doc = strip (group m 1)
    /\ nth_error delimiters 2 = Some (opening, closing)
    /\ lit "# x <#  Sets up  the shell. #> done"
       = pre ++ opening ++ between ++ closing ++ post
    /\ description doc = strip between
    /\ between = ws1 ++ description doc ++ ws2
    /\ all_space ws1 /\ all_space ws2
    /\ trimmed (description doc).
Proof.
  apply (@extract_single_pattern (init [lit "repo"]) [lit "x.ps1"]
           (lit "# x <#  Sets up  the shell. #> done") 2
           (chars (lit "<#") ++ [LazyGroup] ++ chars (lit "#>"))).
  - reflexivity.
  - eapply re_search_some_occurs; vm_compute; reflexivity.
  - intros k q Hk Hq.
    destruct k as [|[|[|[|k]]]]; simpl in Hq; try lia;
      try (destruct k; discriminate);
      inversion Hq; subst q; apply re_search_none; vm_compute; reflexivity.
Defined.

(** C4. In every record the extractor produces, [created_with] and
    [created_date] are both set or both unset. *)
Theorem created_fields_together :
  forall self file_path data doc,
    fst (extract_doc_comment self file_path data) = Some doc ->
    (created_with doc = None <-> created_date doc = None)
    /\ ((exists a, created_with doc = Some a)
        <-> (exists d, created_date doc = Some d)).
Proof.
  intros self file_path data doc H.
  apply extract_some_inv in H as (content & rel & m & _ & _ & ->).
  unfold doc_of_match, creation_info; simpl.
  destruct (re_search created_pattern (strip (group m 1)) false); simpl.
  - split; split; try discriminate; intros _; eexists; reflexivity.
  - split; split; auto; intros [x Hx]; discriminate.
Qed.

Lemma created_fields_together_witness :
  (created_with (mkFileDoc (lit "x.py") (lit "By Created with A (B)")
                           (Some (lit "B")) (Some (lit "A"))) = None
   <-> created_date (mkFileDoc (lit "x.py") (lit "By Created with A (B)")
                               (Some (lit "B")) (Some (lit "A"))) = None)
  /\ ((exists a, created_with (mkFileDoc (lit "x.py")
                    (lit "By Created with A (B)")
                    (Some (lit "B")) (Some (lit "A"))) = Some a)
      <-> (exists d, created_date (mkFileDoc (lit "x.py")
                    (lit "By Created with A (B)")
                    (Some (lit "B")) (Some (lit "A"))) = Some d)).
Proof.
  apply (@created_fields_together (init [lit "repo"]) [lit "repo"; lit "x.py"]
           (Text (lit "<# By Created with A (B) #>"))).
  vm_compute; reflexivity.
Defined.

(** ** The creation annotation *)

(** A lazy group followed by a literal character stops at the first such
    character. *)
Lemma lazy_until_char dotall c r g t gs rest :
  Forall (fun x => dot_matches dotall x = true /\ x <> c) g ->
  match_here dotall (Chr c :: r) t = Some (gs, rest) ->
  match_here dotall (LazyGroup :: Chr c :: r) (g ++ t) = Some (g :: gs, rest).
Proof.
  intros Hg Hm; induction Hg as [|x g [Hd Hx] _ IH]; simpl app;
    rewrite match_here_lazy.
  - rewrite Hm; reflexivity.
  - simpl match_here at 1.
    destruct (N.eqb_spec x c) as [|_]; [contradiction|].
    rewrite Hd, IH; reflexivity.
Qed.

Lemma dot_matches_line (c : char) : dot_matches false c = true <-> c <> NL.
Proof.
  unfold dot_matches; simpl; rewrite negb_true_iff, N.eqb_neq; tauto.
Qed.

Lemma created_pattern_eq :
  created_pattern
  = chars (lit "Created with ") ++ [LazyGroup; Chr LPAREN; LazyGroup; Chr RPAREN].
Proof. reflexivity. Qed.

Lemma app_same_length {A : Type} (a b c d : list A) :
  a ++ b = c ++ d -> length a = length c -> a = c /\ b = d.
Proof.
  revert c; induction a as [|x a IH]; intros [|y c]; simpl;
    try discriminate; [auto|].
  intros E L; inversion E; subst.
  destruct (IH c) as [-> ->]; auto.
Qed.

(** What [created_pattern] matches: an annotation, with its two groups. *)
Lemma matches_created_pattern_inv w gs :
  Matches false created_pattern w gs ->
  exists agent date,
    w = lit "Created with " ++ agent ++ [LPAREN] ++ date ++ [RPAREN]
    /\ gs = [agent; date]
    /\ Forall (fun c => c <> NL) agent /\ Forall (fun c => c <> NL) date.
Proof.
  rewrite created_pattern_eq; intros Hw.
  apply matches_chars in Hw as (w1 & -> & Hw).
  inversion Hw as [| | |agent r1 w2 gs2 Ha Hw2]; subst.
  inversion Hw2 as [|c r2 w3 gs3 Hw3| |]; subst.
  inversion Hw3 as [| | |date r3 w4 gs4 Hd Hw4]; subst.
  inversion Hw4 as [|c r4 w5 gs5 Hw5| |]; subst.
  inversion Hw5; subst.
  exists agent, date; repeat split.
  - eapply Forall_impl; [|exact Ha]; intros c; apply dot_matches_line.
  - eapply Forall_impl; [|exact Hd]; intros c; apply dot_matches_line.
Qed.

Lemma matches_created_pattern_intro agent date :
  Forall (fun c => c <> NL) agent -> Forall (fun c => c <> NL) date ->
  Matches false created_pattern
    (lit "Created with " ++ agent ++ [LPAREN] ++ date ++ [RPAREN])
    [agent; date].
Proof.
  intros Ha Hd; rewrite created_pattern_eq.
  apply matches_chars_intro.
  constructor;
    [eapply Forall_impl; [|exact Ha]; intros c; apply dot_matches_line|].
  constructor.
  constructor;
    [eapply Forall_impl; [|exact Hd]; intros c; apply dot_matches_line|].
  constructor; constructor.
Qed.

(** The search for the annotation finds the leftmost one. *)
Lemma leftmost_annotation_by_search s m :
  re_search created_pattern s false = Some m ->
  forall pre1 agent date post1,
    s = pre1 ++ lit "Created with " ++ agent ++ [LPAREN] ++ date ++ [RPAREN]
        ++ post1 ->
    Forall (fun c => c <> NL) agent -> Forall (fun c => c <> NL) date ->
    m_start m <= length pre1.
Proof.
  intros Hs pre1 agent date post1 E Ha Hd.
  destruct (search_from_here _ _ _ _ Hs) as (pre & s' & _ & Hst & _ & Hmin).
  rewrite Hst; simpl.
  apply (Hmin pre1
           (lit "Created with " ++ agent ++ [LPAREN] ++ date ++ [RPAREN])
           [agent; date] post1).
  - rewrite E, <- !app_assoc; reflexivity.
  - apply matches_created_pattern_intro; assumption.
Qed.

(** The leftmost annotation of the text gives both fields. *)
Lemma creation_info_leftmost_annotation pre agent date post :
  Forall (fun c => c <> NL /\ c <> LPAREN) agent ->
  Forall (fun c => c <> NL /\ c <> RPAREN) date ->
  (forall pre1 agent1 date1 post1,
      pre ++ lit "Created with " ++ agent ++ [LPAREN] ++ date ++ [RPAREN] ++ post
      = pre1 ++ lit "Created with " ++ agent1 ++ [LPAREN] ++ date1
        ++ [RPAREN] ++ post1 ->
      Forall (fun c => c <> NL) agent1 -> Forall (fun c => c <> NL) date1 ->
      length pre <= length pre1) ->
  creation_info
    (pre ++ lit "Created with " ++ agent ++ [LPAREN] ++ date ++ [RPAREN] ++ post)
  = (Some (strip agent), Some (strip date)).
Proof.
  intros Ha Hd Hleft.
  set (s := pre ++ lit "Created with " ++ agent ++ [LPAREN] ++ date
            ++ [RPAREN] ++ post) in *.
  assert (Ha' : Forall (fun c => c <> NL) agent)
    by (eapply Forall_impl; [|exact Ha]; intros c [H _]; exact H).
  assert (Hd' : Forall (fun c => c <> NL) date)
    by (eapply Forall_impl; [|exact Hd]; intros c [H _]; exact H).
  assert (Hhere : match_here false created_pattern
                    (lit "Created with " ++ agent ++ [LPAREN] ++ date
                     ++ [RPAREN] ++ post)
                  = Some ([agent; date], post)).
  { rewrite created_pattern_eq, match_here_chars, starts_with_app.
    rewrite skipn_app, skipn_all, Nat.sub_diag; cbn [skipn app].
    apply lazy_until_char.
    - eapply Forall_impl; [|exact Ha].
      intros c [H1 H2]; split; [apply dot_matches_line|]; assumption.
    - change (match_here false [LazyGroup; Chr RPAREN]
                (date ++ [RPAREN] ++ post) = Some ([date], post)).
      apply lazy_until_char.
      + eapply Forall_impl; [|exact Hd].
        intros c [H1 H2]; split; [apply dot_matches_line|]; assumption.
      + reflexivity. }
  unfold creation_info.
  destruct (re_search created_pattern s false) as [m|] eqn:Hs.
  - destruct (search_from_here _ _ _ _ Hs) as (pre0 & s' & E & Hst & Hm & Hmin).
    assert (L1 : length pre0 <= length pre).
    { apply (Hmin pre
               (lit "Created with " ++ agent ++ [LPAREN] ++ date ++ [RPAREN])
               [agent; date] post).
      - unfold s; rewrite <- !app_assoc; reflexivity.
      - apply matches_created_pattern_intro; assumption. }
    assert (L2 : length pre <= length pre0).
    { destruct (match_here_sound _ _ _ Hm) as (w & Ew & Hw).
      apply matches_created_pattern_inv in Hw as (a1 & d1 & -> & _ & Ha1 & Hd1).
      apply (Hleft pre0 a1 d1 (m_rest m)); [|assumption..].
      fold s; rewrite E, Ew, <- !app_assoc; reflexivity. }
    destruct (@app_same_length _ pre0 s' pre
                (lit "Created with " ++ agent ++ [LPAREN] ++ date
                 ++ [RPAREN] ++ post)) as [_ Es']; [rewrite <- E; reflexivity | lia |].
    rewrite Es', Hhere in Hm; inversion Hm as [[Hg Hr]].
    unfold group; rewrite <- Hg; reflexivity.
  - exfalso; apply re_search_none in Hs; apply Hs.
    exists pre, (lit "Created with " ++ agent ++ [LPAREN] ++ date ++ [RPAREN]),
      [agent; date], post; split.
    + unfold s; rewrite <- !app_assoc; reflexivity.
    + apply matches_created_pattern_intro; assumption.
Qed.

Lemma occurs_created_pattern (s : str) :
  occurs false created_pattern s <-> has_annotation s.
Proof.
  rewrite created_pattern_eq; split.
  - intros (pre & w & gs & post & -> & Hw).
    apply matches_chars in Hw as (w1 & -> & Hw).
    inversion Hw as [| | |agent r1 w2 gs2 Ha Hw2]; subst.
    inversion Hw2 as [|c r2 w3 gs3 Hw3| |]; subst.
    inversion Hw3 as [| | |date r3 w4 gs4 Hd Hw4]; subst.
    inversion Hw4 as [|c r4 w5 gs5 Hw5| |]; subst.
    inversion Hw5; subst.
    exists pre, agent, date, post; repeat split.
    + simpl; rewrite <- !app_assoc; simpl; rewrite <- !app_assoc; reflexivity.
    + eapply Forall_impl; [|exact Ha]; intros c; apply dot_matches_line.
    + eapply Forall_impl; [|exact Hd]; intros c; apply dot_matches_line.
  - intros (pre & agent & date & post & -> & Ha & Hd).
    exists pre, (lit "Created with " ++ agent ++ [LPAREN] ++ date ++ [RPAREN]),
      [agent; date], post; split.
    + rewrite <- !app_assoc; reflexivity.
    + apply matches_chars_intro.
      constructor;
        [eapply Forall_impl; [|exact Ha]; intros c; apply dot_matches_line|].
      constructor.
      constructor;
        [eapply Forall_impl; [|exact Hd]; intros c; apply dot_matches_line|].
      constructor; constructor.
Qed.

Lemma extract_creation_info self file_path data doc :
  fst (extract_doc_comment self file_path data) = Some doc ->
  created_with doc = fst (creation_info (description doc))
  /\ created_date doc = snd (creation_info (description doc)).
Proof.
  intros H; apply extract_some_inv in H as (content & rel & m & _ & _ & ->).
  split; reflexivity.
Qed.

(** The comment holds the annotation once and no other, and [created_with]
    is not the agent of the annotation: the first [Created with ] of the
    comment starts before it. *)
Lemma claimed_annotation_fields_counterexample :
  ~ claimed_annotation_fields
      (lit "<# Created with care. Created with Foo (2024-01-02) #>").
Proof.
  intros H.
  destruct (H (init [lit "repo"]) [lit "x.ps1"]
              (mkFileDoc (lit "x.ps1")
                 (lit "Created with care. Created with Foo (2024-01-02)")
                 (Some (lit "2024-01-02"))
                 (Some (lit "care. Created with Foo")))
              (lit "Created with care. ") [])
    as [Hw _]; try (vm_compute; reflexivity).
  vm_compute in Hw; discriminate.
Qed.

(** C3, amended. When no annotation of the shape
    [Created with <agent>(<date>)], agent and date on one line, starts in
    the trimmed comment before [Created with Foo (2024-01-02)], the record
    has [created_with = "Foo"] and [created_date = "2024-01-02"]; both
    fields are unset exactly when the trimmed comment holds no annotation
    of that shape; and the scenario of the specification holds: a file made
    of triple double quote, [Hello], line feed,
    [Created with Claude (2024-01-02)], line feed, triple double quote
    gives the description without the last line feed,
    [created_with = "Claude"] and [created_date = "2024-01-02"]. *)
Theorem annotation_fields :
  (forall self file_path data doc pre post,
      fst (extract_doc_comment self file_path data) = Some doc ->
      description doc = pre ++ lit "Created with Foo (2024-01-02)" ++ post ->
      (forall pre1 agent date post1,
          description doc
          = pre1 ++ lit "Created with " ++ agent ++ [LPAREN] ++ date
            ++ [RPAREN] ++ post1 ->
          Forall (fun c => c <> NL) agent -> Forall (fun c => c <> NL) date ->
          length pre <= length pre1) ->
      created_with doc = Some (lit "Foo")
      /\ created_date doc = Some (lit "2024-01-02"))
  /\ (forall self file_path data doc,
         fst (extract_doc_comment self file_path data) = Some doc ->
         (created_with doc = None /\ created_date doc = None
          <-> ~ has_annotation (description doc)))
  /\ (forall self rel,
         extract_doc_comment self (root_dir self ++ rel)
           (Text ([DQUOTE; DQUOTE; DQUOTE] ++ lit "Hello" ++ [NL]
                  ++ lit "Created with Claude (2024-01-02)" ++ [NL]
                  ++ [DQUOTE; DQUOTE; DQUOTE]))
         = (Some (mkFileDoc (path_str rel)
                    (lit "Hello" ++ [NL] ++ lit "Created with Claude (2024-01-02)")
                    (Some (lit "2024-01-02")) (Some (lit "Claude"))),
            [])).
Proof.
  split; [|split].
  - intros self file_path data doc pre post Hx Hd Hleft.
    destruct (extract_creation_info _ _ _ Hx) as [-> ->].
    rewrite Hd in Hleft |- *.
    change (lit "Created with Foo (2024-01-02)" ++ post)
      with (lit "Created with " ++ lit "Foo " ++ [LPAREN] ++ lit "2024-01-02"
            ++ [RPAREN] ++ post) in Hleft |- *.
    rewrite (@creation_info_leftmost_annotation pre (lit "Foo ")
               (lit "2024-01-02") post).
    + split; reflexivity.
    + vm_compute; repeat constructor; discriminate.
    + vm_compute; repeat constructor; discriminate.
    + exact Hleft.
  - intros self file_path data doc Hx.
    destruct (extract_creation_info _ _ _ Hx) as [-> ->].
    rewrite <- occurs_created_pattern, <- re_search_none.
    unfold creation_info.
    destruct (re_search created_pattern (description doc) false); simpl.
    + split; [intros [H _]; discriminate | discriminate].
    + tauto.
  - intros self rel.
    unfold extract_doc_comment, try_body.
    rewrite (@try_patterns_first self rel _ doc_patterns 0
               ([Chr DQUOTE; Chr DQUOTE; Chr DQUOTE; LazyGroup;
                 Chr DQUOTE; Chr DQUOTE; Chr DQUOTE])
               (mkMatch 0 [lit "Hello" ++ [NL]
                           ++ lit "Created with Claude (2024-01-02)" ++ [NL]] [])).
    + reflexivity.
    + reflexivity.
    + reflexivity.
    + intros k q Hk; lia.
Qed.

Lemma annotation_fields_witness :
  created_with (mkFileDoc (lit "x.py")
                  (lit "Created with love" ++ [NL]
                   ++ lit "Created with Foo (2024-01-02)")
                  (Some (lit "2024-01-02")) (Some (lit "Foo")))
    = Some (lit "Foo")
  /\ created_date (mkFileDoc (lit "x.py")
                  (lit "Created with love" ++ [NL]
                   ++ lit "Created with Foo (2024-01-02)")
                  (Some (lit "2024-01-02")) (Some (lit "Foo")))
    = Some (lit "2024-01-02").
Proof.
  apply (proj1 annotation_fields (init [lit "repo"]) [lit "repo"; lit "x.py"]
           (Text (lit "/** Created with love" ++ [NL]
                  ++ lit "Created with Foo (2024-01-02) */"))
           (mkFileDoc (lit "x.py")
              (lit "Created with love" ++ [NL]
               ++ lit "Created with Foo (2024-01-02)")
              (Some (lit "2024-01-02")) (Some (lit "Foo")))
           (lit "Created with love" ++ [NL]) []).
  - vm_compute; reflexivity.
  - vm_compute; reflexivity.
  - intros pre1 agent date post1 E Ha Hd.
    apply (@leftmost_annotation_by_search
             (lit "Created with love" ++ [NL]
              ++ lit "Created with Foo (2024-01-02)")
             (mkMatch 18 [lit "Foo "; lit "2024-01-02"] [])
             eq_refl pre1 agent date post1 E Ha Hd).
Defined.


(** ** The formatter *)

Lemma find_from_complete needle post :
  forall pre pos, find_from needle (pre ++ needle ++ post) pos <> None.
Proof.
  induction pre as [|x pre IH]; intros pos.
  - simpl app; destruct (needle ++ post) eqn:E; simpl;
      rewrite <- E, starts_with_app; discriminate.
  - simpl; destruct (starts_with needle _); [discriminate | apply IH].
Qed.

Lemma str_mul_single (c : char) (n : nat) : str_mul [c] n = repeat c n.
Proof.
  unfold str_mul; induction n as [|n IH]; simpl; [|rewrite IH]; reflexivity.
Qed.

Lemma format_step_app (output : list str) (doc : FileDoc) :
  format_step output doc = output ++ format_step [] doc.
Proof.
  unfold format_step.
  destruct (created_with doc) as [cw|], (created_date doc) as [cd|];
    try destruct (truthy cw && truthy cd);
    simpl; rewrite <- ?app_assoc; reflexivity.
Qed.

Lemma fold_format_step (docs : list FileDoc) :
  forall output,
    fold_left format_step docs output
    = output ++ flat_map (format_step []) docs.
Proof.
  induction docs as [|d docs IH]; intros output; simpl.
  - rewrite app_nil_r; reflexivity.
  - rewrite IH, format_step_app, <- app_assoc; reflexivity.
Qed.

Lemma join_cons (sep p : str) (ps : list str) :
  join sep (p :: ps) = p ++ concat (map (fun s => sep ++ s) ps).
Proof.
  revert p; induction ps as [|q ps IH]; intros p.
  - simpl; rewrite app_nil_r; reflexivity.
  - change (join sep (p :: q :: ps)) with (p ++ sep ++ join sep (q :: ps)).
    rewrite IH; simpl; rewrite <- !app_assoc; reflexivity.
Qed.

Lemma join_app (sep p : str) (ps qs : list str) :
  join sep ((p :: ps) ++ qs)
  = join sep (p :: ps) ++ concat (map (fun s => sep ++ s) qs).
Proof.
  change ((p :: ps) ++ qs) with (p :: (ps ++ qs)).
  rewrite !join_cons, map_app, concat_app, app_assoc; reflexivity.
Qed.

Lemma format_step_block (doc : FileDoc) :
  concat (map (fun s => [NL] ++ s) (format_step [] doc)) = rendered_block doc.
Proof.
  unfold format_step, rendered_block, created_line.
  change (lit "-") with [DASH]; rewrite str_mul_single.
  destruct (created_with doc) as [cw|], (created_date doc) as [cd|];
    try destruct (truthy cw && truthy cd);
    simpl; rewrite <- ?app_assoc; simpl; rewrite ?app_nil_r; reflexivity.
Qed.

Lemma concat_map_flat_map {A B C : Type} (f : B -> list C) (g : A -> list B)
    (l : list A) :
  concat (map f (flat_map g l)) = concat (map (fun a => concat (map f (g a))) l).
Proof.
  induction l as [|a l IH]; simpl; [reflexivity|].
  rewrite map_app, concat_app, IH; reflexivity.
Qed.

(** The report is the report of no record followed by the blocks of the
    records, in the order of the records. *)
Lemma format_output_blocks (self : DocGatherer) (docs : list FileDoc) :
  format_output self docs
  = format_output self [] ++ concat (map rendered_block docs).
Proof.
  unfold format_output; simpl fold_left at 2.
  rewrite fold_format_step, join_app, concat_map_flat_map.
  f_equal; f_equal.
  apply map_ext; intros d; apply format_step_block.
Qed.

(** Both fields are present, one of them is the empty string, and the report
    shows no creation line. *)
Lemma claimed_created_line_counterexample :
  ~ claimed_created_line (init [lit "repo"])
      (mkFileDoc (lit "x.py") (lit "Setup helper.")
                 (Some (lit "2024-01-02")) (Some [])).
Proof.
  intros H.
  destruct (H [] (lit "2024-01-02") eq_refl eq_refl) as (pre & post & E).
  apply (@find_from_complete
           (lit "Created with " ++ [] ++ lit " (" ++ lit "2024-01-02" ++ lit ")")
           post pre 0).
  rewrite <- !app_assoc, <- E.
  vm_compute; reflexivity.
Qed.

(** The extractor produces such a record. *)
Example extractor_gives_empty_created_with :
  fst (extract_doc_comment (init [lit "repo"]) [lit "repo"; lit "x.py"]
         (Text (lit "<# Created with (2024-01-02) #>")))
  = Some (mkFileDoc (lit "x.py") (lit "Created with (2024-01-02)")
                    (Some (lit "2024-01-02")) (Some [])).
Proof. vm_compute; reflexivity. Qed.

(** C5, amended. Every record of the sequence is rendered as its path, an
    underline of as many dashes as the path has characters, its description,
    and a trailing [Created with X (Y)] line exactly when [created_with] and
    [created_date] are both present and neither is the empty string. *)
Theorem format_output_record :
  forall self before doc after,
    format_output self (before ++ doc :: after)
    = format_output self before
      ++ ([NL; NL] ++ path doc ++ [NL]
          ++ repeat DASH (length (path doc)) ++ [NL]
          ++ description doc
          ++ match created_with doc, created_date doc with
             | Some cw, Some cd =>
                 if negb (str_eqb cw []) && negb (str_eqb cd []) then
                   [NL; NL] ++ lit "Created with " ++ cw ++ lit " (" ++ cd
                   ++ lit ")"
                 else []
             | _, _ => []
             end
          ++ [NL; NL])
      ++ concat (map rendered_block after).
Proof.
  intros self before doc after.
  rewrite (format_output_blocks self (before ++ doc :: after)),
    (format_output_blocks self before).
  rewrite map_app, concat_app, <- app_assoc; simpl.
  do 2 f_equal.
  unfold rendered_block, created_line.
  destruct (created_with doc) as [[|c cw]|], (created_date doc) as [[|c' cd]|];
    reflexivity.
Qed.

(** C6. Rendering no record gives the project context followed by the
    section header, joined by one line feed, and nothing else. *)
Theorem format_output_empty :
  (forall self,
      format_output self [] = project_context self ++ [NL] ++ section_header)
  /\ (forall root,
         format_output (init root) []
         = project_context_text ++ [NL]
           ++ ([NL] ++ lit "File Documentation:" ++ [NL]
               ++ lit "-------------------"))
  /\ (forall self, format_output self [] = join [NL] [project_context self;
                                                      section_header]).
Proof.
  repeat split; intros; unfold format_output; cbn [fold_left join];
    reflexivity.
Qed.

(** ** The walker and the scan *)

Lemma gather_step_visits self docs out item :
  gather_step self (docs, out) item
  = match stat_error item with
    | Some err => Raised err
    | None =>
        Ok (if visits allowed_suffixes item then
              (docs ++ opt_list (fst (extracted self item)),
               out ++ snd (extracted self item))
            else (docs, out))
    end.
Proof.
  destruct item as [p e];
    unfold gather_step, visits, stat_error, extracted; cbn [fst snd].
  destruct (is_file e) as [regular|err]; [|reflexivity].
  destruct (regular && str_in (suffix p) allowed_suffixes); [|reflexivity].
  destruct (extract_doc_comment self p (read_text e)) as [[d|] printed];
    cbn [fst snd opt_list]; rewrite ?app_nil_r; reflexivity.
Qed.

(** The loop from a state on: it raises at the first item whose [is_file]
    raises, and gives otherwise, in order, the records of the items that
    pass the test; what it printed is what the items before that first
    error printed. *)
Lemma gather_from_spec self items :
  forall docs out,
    gather_from self items (docs, out)
    = (match first_stat_failure items with
       | None =>
           Ok (docs ++ flat_map (fun it => opt_list (fst (extracted self it)))
                                (filter (visits allowed_suffixes) items))
       | Some err => Raised err
       end,
       out ++ flat_map (fun it => snd (extracted self it))
                       (filter (visits allowed_suffixes)
                               (until_stat_failure items))).
Proof.
  induction items as [|it items IH]; intros docs out.
  - simpl; rewrite !app_nil_r; reflexivity.
  - cbn [gather_from first_stat_failure until_stat_failure].
    rewrite gather_step_visits.
    destruct (stat_error it) as [err|].
    + cbn [filter flat_map snd]; rewrite app_nil_r; reflexivity.
    + cbn [filter]; destruct (visits allowed_suffixes it); rewrite IH.
      * cbn [flat_map]; rewrite <- !app_assoc.
        destruct (first_stat_failure items); reflexivity.
      * reflexivity.
Qed.

Lemma gather_loop_spec self items :
  gather_loop self items
  = (match first_stat_failure items with
     | None =>
         Ok (flat_map (fun it => opt_list (fst (extracted self it)))
                      (filter (visits allowed_suffixes) items))
     | Some err => Raised err
     end,
     flat_map (fun it => snd (extracted self it))
              (filter (visits allowed_suffixes) (until_stat_failure items))).
Proof. unfold gather_loop; rewrite gather_from_spec; reflexivity. Qed.

Lemma until_stat_failure_complete items :
  first_stat_failure items = None -> until_stat_failure items = items.
Proof.
  induction items as [|it items IH]; simpl; [reflexivity|].
  destruct (stat_error it); [discriminate|].
  intros H; rewrite IH; auto.
Qed.

Lemma first_stat_failure_none items :
  first_stat_failure items = None <->
  forall it, In it items -> stat_error it = None.
Proof.
  induction items as [|it items IH]; simpl.
  - split; [intros _ it [] | reflexivity].
  - destruct (stat_error it) as [err|] eqn:E.
    + split; [discriminate|].
      intros H; rewrite <- E; apply H; left; reflexivity.
    + rewrite IH; split.
      * intros H it' [<-|Hin]; [exact E | auto].
      * intros H it' Hin; apply H; right; exact Hin.
Qed.

(** The loop ends with records exactly when no [is_file] raised. *)
Lemma gather_loop_ok self items docs :
  fst (gather_loop self items) = Ok docs <->
  first_stat_failure items = None
  /\ docs = flat_map (fun it => opt_list (fst (extracted self it)))
                     (filter (visits allowed_suffixes) items).
Proof.
  rewrite gather_loop_spec; cbn [fst].
  destruct (first_stat_failure items) as [err|]; split.
  - discriminate.
  - intros [H _]; discriminate.
  - intros H; inversion H; auto.
  - intros [_ ->]; reflexivity.
Qed.

(** The loop from a state, in terms of the loop from the start. *)
Lemma gather_from_loop self items docs out :
  gather_from self items (docs, out)
  = (match fst (gather_loop self items) with
     | Ok docs' => Ok (docs ++ docs')
     | Raised err => Raised err
     end,
     out ++ snd (gather_loop self items)).
Proof.
  rewrite gather_from_spec, gather_loop_spec; cbn [fst snd].
  destruct (first_stat_failure items); reflexivity.
Qed.

Lemma gather_from_app self items1 :
  forall items2 st,
    gather_from self (items1 ++ items2) st
    = match gather_from self items1 st with
      | (Ok docs, out) => gather_from self items2 (docs, out)
      | (Raised err, out) => (Raised err, out)
      end.
Proof.
  induction items1 as [|it items1 IH]; intros items2 [docs out].
  - reflexivity.
  - cbn [app gather_from].
    destruct (gather_step self (docs, out) it) as [st'|err];
      [apply IH | reflexivity].
Qed.

(** An item that can be asked for its [stat] and does not pass the test
    leaves the loop as it is. *)
Lemma gather_from_skip self it items st :
  stat_error it = None -> visits allowed_suffixes it = false ->
  gather_from self (it :: items) st = gather_from self items st.
Proof.
  intros Hs Hv; destruct st as [docs out]; cbn [gather_from].
  rewrite gather_step_visits, Hs, Hv; reflexivity.
Qed.

Lemma format_output_walk self items :
  format_output self
    (flat_map (fun it => opt_list (fst (extracted self it))) items)
  = format_output self []
    ++ concat (map (fun it =>
                      concat (map rendered_block
                                (opt_list (fst (extracted self it)))))
                   items).
Proof.
  rewrite (format_output_blocks self (flat_map _ items)).
  f_equal; apply (concat_map_flat_map (C := char)).
Qed.

(** *** What lies under the root *)

Lemma distinct_NoDup (l : list str) : distinct l = true -> NoDup l.
Proof.
  induction l as [|x l IH]; simpl; [constructor|].
  rewrite andb_true_iff, negb_true_iff; intros [Hx Hl].
  constructor; [|auto].
  intros Hin; apply str_in_In in Hin; congruence.
Qed.

Lemma NoDup_map_inj {A B : Type} (f : A -> B) (l : list A) :
  (forall x y, f x = f y -> x = y) -> NoDup l -> NoDup (map f l).
Proof.
  intros Hinj; induction 1 as [|x l Hx _ IH]; simpl; constructor; [|exact IH].
  rewrite in_map_iff; intros (y & E & Hy); apply Hinj in E; subst; contradiction.
Qed.

Lemma NoDup_map_filter {A B : Type} (f : A -> B) (g : A -> bool) (l : list A) :
  NoDup (map f l) -> NoDup (map f (filter g l)).
Proof.
  induction l as [|x l IH]; simpl; [auto|].
  intros H; inversion H as [|y l' Hx Hl]; subst.
  destruct (g x); simpl; [|auto].
  constructor; [|auto].
  rewrite in_map_iff; intros (y & E & Hy); apply filter_In in Hy as [Hy _].
  apply Hx; rewrite <- E; apply in_map; assumption.
Qed.

Lemma entry_at_nonempty entries rel e : entry_at entries rel e -> rel <> [].
Proof. destruct 1; discriminate. Qed.

Lemma in_rglob_list (entries : list entry) :
  Forall below_spec entries ->
  forall dir p e',
    In (p, e') (rglob dir entries) <->
    exists rel, p = dir ++ rel /\ entry_at entries rel e'.
Proof.
  intros HP dir p e'; rewrite Forall_forall in HP.
  unfold rglob; rewrite in_app_iff, in_map_iff, in_flat_map; split.
  - intros [(e & E & He)|(e & He & Hin)].
    + inversion E; subst.
      exists [entry_name e']; split; [reflexivity | constructor; assumption].
    + apply (HP e He) in Hin as (n & ch & rel & -> & -> & Hat).
      exists (n :: rel); split; [reflexivity | econstructor; eassumption].
  - intros (rel & -> & Hat); inversion Hat as [? ? He|? n ch rel' ? Hd Hat']; subst.
    + left; exists e'; split; [reflexivity | assumption].
    + right; exists (Dir n ch); split; [assumption|].
      apply (HP _ Hd); exists n, ch, rel'; repeat split; assumption.
Qed.

Lemma rglob_below_spec (e : entry) : below_spec e.
Proof.
  induction e as [n data|n ch IH|n|n err] using entry_nested_ind;
    intros dir p e'.
  - simpl; split; [tauto | intros (? & ? & ? & E & _); discriminate].
  - change (rglob_below dir (Dir n ch)) with (rglob (dir ++ [n]) ch).
    rewrite (in_rglob_list IH); split.
    + intros (rel & -> & Hat); exists n, ch, rel; repeat split; [|assumption].
      rewrite <- app_assoc; reflexivity.
    + intros (n0 & ch0 & rel & E & -> & Hat); inversion E; subst.
      exists rel; split; [rewrite <- app_assoc; reflexivity | assumption].
  - simpl; split; [tauto | intros (? & ? & ? & E & _); discriminate].
  - simpl; split; [tauto | intros (? & ? & ? & E & _); discriminate].
Qed.

(** [rglob] yields exactly the entries under the root, each with its path. *)
Lemma in_rglob (entries : list entry) (dir p : Path) (e : entry) :
  In (p, e) (rglob dir entries) <->
  exists rel, p = dir ++ rel /\ entry_at entries rel e.
Proof.
  apply in_rglob_list, Forall_forall; intros x _; apply rglob_below_spec.
Qed.

Lemma rglob_below_shape dir e p :
  In p (map fst (rglob_below dir e)) ->
  exists rel, p = dir ++ entry_name e :: rel /\ rel <> [].
Proof.
  rewrite in_map_iff; intros ([p' e'] & E & Hin); simpl in E; subst p'.
  apply rglob_below_spec in Hin as (n & ch & rel & -> & -> & Hat).
  exists rel; split; [reflexivity | eapply entry_at_nonempty; eassumption].
Qed.

Lemma NoDup_rglob_list (entries : list entry) :
  Forall nodup_below entries ->
  distinct (map entry_name entries) = true ->
  forallb wf_entry entries = true ->
  forall dir, NoDup (map fst (rglob dir entries)).
Proof.
  intros HQ Hd Hwf dir; apply distinct_NoDup in Hd.
  unfold rglob; rewrite map_app, map_map; cbn [fst].
  apply NoDup_app.
  - rewrite <- (map_map entry_name (fun n => dir ++ [n])).
    apply NoDup_map_inj; [|assumption].
    intros x y E; apply app_inv_head in E; inversion E; reflexivity.
  - induction entries as [|e es IH]; simpl; [constructor|].
    inversion HQ as [|? ? Qe Qes]; subst.
    simpl in Hwf; apply andb_true_iff in Hwf as [We Wes].
    simpl in Hd; inversion Hd as [|? ? Hne Hnd]; subst.
    rewrite map_app; apply NoDup_app; [apply Qe; assumption | auto |].
    intros p H1 H2.
    apply rglob_below_shape in H1 as (rel1 & -> & _).
    rewrite in_map_iff in H2; destruct H2 as ([p' e'] & E & Hin); simpl in E.
    apply in_flat_map in Hin as (e2 & He2 & Hin).
    assert (H2 : In p' (map fst (rglob_below dir e2))).
    { rewrite in_map_iff; exists (p', e'); split; [reflexivity | assumption]. }
    apply rglob_below_shape in H2 as (rel2 & -> & _).
    apply app_inv_head in E; inversion E as [[En Er]].
    apply Hne; rewrite <- En; apply in_map; assumption.
  - intros p H1 H2.
    rewrite in_map_iff in H1; destruct H1 as (e1 & <- & _).
    rewrite in_map_iff in H2; destruct H2 as ([p' e'] & E & Hin); simpl in E.
    apply in_flat_map in Hin as (e2 & He2 & Hin).
    assert (H2 : In p' (map fst (rglob_below dir e2))).
    { rewrite in_map_iff; exists (p', e'); split; [reflexivity | assumption]. }
    apply rglob_below_shape in H2 as (rel2 & -> & Hne).
    apply app_inv_head in E; inversion E; subst; apply Hne; reflexivity.
Qed.

Lemma NoDup_rglob_below (e : entry) : nodup_below e.
Proof.
  induction e as [n data|n ch IH|n|n err] using entry_nested_ind;
    intros dir Hwf.
  - constructor.
  - change (rglob_below dir (Dir n ch)) with (rglob (dir ++ [n]) ch).
    simpl in Hwf; apply andb_true_iff in Hwf as [Hd Hw].
    apply NoDup_rglob_list; assumption.
  - constructor.
  - constructor.
Qed.

(** In a tree where the names of a directory are distinct, [rglob] yields
    no path twice. *)
Lemma NoDup_rglob (tree : list entry) (dir : Path) :
  wf_tree tree = true -> NoDup (map fst (rglob dir tree)).
Proof.
  unfold wf_tree; rewrite andb_true_iff; intros [Hd Hw].
  apply NoDup_rglob_list; try assumption.
  apply Forall_forall; intros x _; apply NoDup_rglob_below.
Qed.

(** No [is_file] raises along the walk exactly when every entry under the
    root can be asked for its [stat]. *)
Lemma stat_ok_rglob (root : Path) (tree : list entry) :
  stat_ok tree <-> first_stat_failure (rglob root tree) = None.
Proof.
  rewrite first_stat_failure_none; unfold stat_ok, stat_error; split.
  - intros H [p e] Hin; cbn [snd].
    apply in_rglob in Hin as (rel & _ & Hat).
    destruct (is_file e) as [b|err] eqn:E; [reflexivity|].
    exfalso; exact (H rel e Hat err E).
  - intros H rel e Hat err E.
    assert (Hin : In (root ++ rel, e) (rglob root tree))
      by (apply in_rglob; eauto).
    apply H in Hin; cbn [snd] in Hin; rewrite E in Hin; discriminate.
Qed.

Lemma walker_item_under_root exts root tree p e :
  In (p, e) (walker exts root tree) ->
  exists rel n data,
    p = root ++ rel /\ e = File n data /\ entry_at tree rel (File n data)
    /\ In (suffix p) exts.
Proof.
  intros Hin; apply filter_In in Hin as [Hin Hv].
  apply in_rglob in Hin as (rel & -> & Hat).
  unfold visits in Hv; cbn [fst snd] in Hv.
  destruct e as [n data|n ch|n|n err]; cbn [is_file andb] in Hv;
    try discriminate.
  exists rel, n, data; repeat split; [assumption|].
  apply str_in_In; assumption.
Qed.

(** The scan of a tree in which every entry can be asked for its [stat]. *)
Lemma gather_docs_stat_ok self tree :
  stat_ok tree ->
  gather_docs self tree
  = (Ok (flat_map (fun it => opt_list (fst (extracted self it)))
                  (walker allowed_suffixes (root_dir self) tree)),
     flat_map (fun it => snd (extracted self it))
              (walker allowed_suffixes (root_dir self) tree)).
Proof.
  intros H; apply (stat_ok_rglob (root_dir self)) in H.
  unfold gather_docs, walker; rewrite gather_loop_spec, H.
  rewrite (until_stat_failure_complete _ H); reflexivity.
Qed.

(** The scan ends with records exactly when every entry under the root can
    be asked for its [stat]. *)
Lemma gather_docs_ok self tree docs :
  fst (gather_docs self tree) = Ok docs <->
  stat_ok tree
  /\ docs = flat_map (fun it => opt_list (fst (extracted self it)))
                     (walker allowed_suffixes (root_dir self) tree).
Proof.
  unfold gather_docs; rewrite gather_loop_ok, <- stat_ok_rglob; reflexivity.
Qed.

(** C7. The formatter keeps the order and drops nothing: the report of
    [r1; r2] is the report of no record, then the block of [r1], then the
    block of [r2]; records added at the end add their blocks at the end; and
    whenever a scan ends with records, these are, in order, those of the
    files the walker yields (whatever the order in which the entries are
    met), so the blocks of the final report follow the order of the walker.
    A scan ends with records when every entry under the root can be asked
    for its [stat]. *)
Theorem report_order_preserved :
  (forall self r1 r2,
      format_output self [r1; r2]
      = format_output self [] ++ rendered_block r1 ++ rendered_block r2)
  /\ (forall self docs1 docs2,
         format_output self (docs1 ++ docs2)
         = format_output self docs1 ++ concat (map rendered_block docs2))
  /\ (forall self items docs,
         fst (gather_loop self items) = Ok docs ->
         docs = flat_map (fun it => opt_list (fst (extracted self it)))
                         (filter (visits allowed_suffixes) items))
  /\ (forall self tree docs,
         fst (gather_docs self tree) = Ok docs ->
         docs = flat_map (fun it => opt_list (fst (extracted self it)))
                         (walker allowed_suffixes (root_dir self) tree))
  /\ (forall self tree docs,
         fst (gather_docs self tree) = Ok docs ->
         format_output self docs
         = format_output self []
           ++ concat (map (fun it =>
                             concat (map rendered_block
                                       (opt_list (fst (extracted self it)))))
                          (walker allowed_suffixes (root_dir self) tree)))
  /\ (forall self tree,
         stat_ok tree -> exists docs, fst (gather_docs self tree) = Ok docs).
Proof.
  split; [|split; [|split; [|split; [|split]]]].
  - intros self r1 r2; rewrite (format_output_blocks self [r1; r2]); simpl concat.
    rewrite app_nil_r; reflexivity.
  - intros self docs1 docs2.
    rewrite (format_output_blocks self (docs1 ++ docs2)),
      (format_output_blocks self docs1).
    rewrite map_app, concat_app, app_assoc; reflexivity.
  - intros self items docs H; apply gather_loop_ok in H as [_ H]; exact H.
  - intros self tree docs H; apply gather_docs_ok in H as [_ H]; exact H.
  - intros self tree docs H; apply gather_docs_ok in H as [_ ->].
    apply format_output_walk.
  - intros self tree H; eexists; apply gather_docs_ok; split;
      [exact H | reflexivity].
Qed.

Lemma report_order_preserved_witness :
  [mkFileDoc (lit "a.py") (lit "A") None None;
   mkFileDoc (lit "d/b.sh") (lit "B") None None]
  = flat_map (fun it => opt_list (fst (extracted (init [lit "repo"]) it)))
      (walker allowed_suffixes (root_dir (init [lit "repo"]))
         [File (lit "a.py") (Text (lit "<# A #>"));
          Dir (lit "d")
            [File (lit "b.sh") (Text (lit "/** B */"));
             File (lit "notes.txt") (Text (lit "<# N #>"))]]).
Proof.
  apply (proj1 (proj2 (proj2 (proj2 report_order_preserved)))
           (init [lit "repo"])
           [File (lit "a.py") (Text (lit "<# A #>"));
            Dir (lit "d")
              [File (lit "b.sh") (Text (lit "/** B */"));
               File (lit "notes.txt") (Text (lit "<# N #>"))]]
           [mkFileDoc (lit "a.py") (lit "A") None None;
            mkFileDoc (lit "d/b.sh") (lit "B") None None]).
  vm_compute; reflexivity.
Defined.

(** C8. For every tree whose directories hold no name twice and every list
    of extensions, the files that pass the test of the loop are exactly the
    regular files under the root whose suffix is in the list: no path
    twice, no directory.  When every entry under the root can be asked for
    its [stat], the scan hands each of them to the extractor once, in that
    order.  When one entry cannot, the call of [is_file] on it raises
    outside every [try] and the scan ends with that exception: it returns
    no file at all. *)
Theorem walker_exact_unless_stat_fails :
  forall exts root tree,
    wf_tree tree = true ->
    NoDup (map fst (walker exts root tree))
    /\ (forall p,
           In p (map fst (walker exts root tree)) <->
           exists rel n data,
             p = root ++ rel /\ entry_at tree rel (File n data)
             /\ In (suffix p) exts)
    /\ (forall p e, In (p, e) (walker exts root tree) -> is_file e = Ok true)
    /\ (forall self,
           stat_ok tree ->
           gather_docs self tree
           = (Ok (flat_map (fun it => opt_list (fst (extracted self it)))
                           (walker allowed_suffixes (root_dir self) tree)),
              flat_map (fun it => snd (extracted self it))
                       (walker allowed_suffixes (root_dir self) tree)))
    /\ (forall self rel n err,
           entry_at tree rel (NoStat n err) ->
           exists err', fst (gather_docs self tree) = Raised err').
Proof.
  intros exts root tree Hwf; split; [|split; [|split; [|split]]].
  - apply NoDup_map_filter, NoDup_rglob; assumption.
  - intros p; split.
    + rewrite in_map_iff; intros ([p' e] & E & Hin); simpl in E; subst p'.
      apply walker_item_under_root in Hin as (rel & n & data & -> & -> & Hat & Hs).
      exists rel, n, data; auto.
    + intros (rel & n & data & -> & Hat & Hs).
      apply in_map_iff; exists (root ++ rel, File n data); split; [reflexivity|].
      apply filter_In; split; [apply in_rglob; eauto|].
      unfold visits; cbn [fst snd is_file andb]; apply str_in_In; assumption.
  - intros p e Hin.
    apply walker_item_under_root in Hin as (rel & n & data & _ & -> & _).
    reflexivity.
  - intros self; apply gather_docs_stat_ok.
  - intros self rel n err Hat.
    destruct (fst (gather_docs self tree)) as [docs|err'] eqn:E;
      [|exists err'; reflexivity].
    apply gather_docs_ok in E as [Hok _].
    exfalso; exact (Hok rel _ Hat err eq_refl).
Qed.

Lemma walker_exact_unless_stat_fails_witness :
  NoDup (map fst (walker allowed_suffixes [lit "repo"] locked_tree))
  /\ map fst (walker allowed_suffixes [lit "repo"] locked_tree)
     = [[lit "repo"; lit "a.py"]; [lit "repo"; lit "z"; lit "c.sh"]]
  /\ gather_docs (init [lit "repo"]) locked_tree
     = (Raised (lit "[Errno 13] Permission denied: 'repo/locked/b.py'"), []).
Proof.
  split; [|split; vm_compute; reflexivity].
  apply (@walker_exact_unless_stat_fails allowed_suffixes [lit "repo"]
           locked_tree).
  vm_compute; reflexivity.
Defined.

(** C9. A file whose content cannot be read or decoded gives no record and
    one warning line, and the scan goes on past it: while no [is_file]
    raises, its result is that of the files before it and of the files
    after it, as if the file were not there, with the warning between
    their printed lines.  A file that cannot be read because its [stat] is
    refused is not skipped: the scan ends at it with the exception, the
    records made so far are lost and the files after it are never looked
    at; on the tree [locked_tree], [main] prints no report. *)
Theorem unreadable_file_skipped_unless_stat_fails :
  (forall self tree items1 p n msg items2 docs1,
      rglob (root_dir self) tree
        = items1 ++ (p, File n (Unreadable msg)) :: items2 ->
      str_in (suffix p) allowed_suffixes = true ->
      fst (gather_loop self items1) = Ok docs1 ->
      extract_doc_comment self p (Unreadable msg)
        = (None, [lit "Error processing " ++ path_str p ++ lit ": " ++ msg])
      /\ gather_docs self tree
         = (match fst (gather_loop self items2) with
            | Ok docs2 => Ok (docs1 ++ docs2)
            | Raised err => Raised err
            end,
            snd (gather_loop self items1)
            ++ [lit "Error processing " ++ path_str p ++ lit ": " ++ msg]
            ++ snd (gather_loop self items2)))
  /\ (forall self tree items1 p n err items2 docs1,
         rglob (root_dir self) tree = items1 ++ (p, NoStat n err) :: items2 ->
         fst (gather_loop self items1) = Ok docs1 ->
         gather_docs self tree = (Raised err, snd (gather_loop self items1)))
  /\ (forall pyperclip_copy,
         main [lit "repo"] locked_tree pyperclip_copy
         = ([], Raised (lit "[Errno 13] Permission denied: 'repo/locked/b.py'"))).
Proof.
  split; [|split].
  - intros self tree items1 p n msg items2 docs1 Hr Hs H1; split; [reflexivity|].
    unfold gather_docs, gather_loop at 1; rewrite Hr, gather_from_app.
    rewrite (gather_from_loop self items1 [] []), H1; cbn [app].
    cbn [gather_from]; rewrite gather_step_visits.
    unfold stat_error, visits, extracted; cbn [fst snd is_file read_text andb].
    rewrite Hs.
    change (extract_doc_comment self p (Unreadable msg))
      with (@None FileDoc,
            [lit "Error processing " ++ path_str p ++ lit ": " ++ msg]).
    cbn [fst snd opt_list]; rewrite app_nil_r, gather_from_loop.
    rewrite <- app_assoc; reflexivity.
  - intros self tree items1 p n err items2 docs1 Hr H1.
    unfold gather_docs, gather_loop at 1; rewrite Hr, gather_from_app.
    rewrite (gather_from_loop self items1 [] []), H1; cbn [app].
    cbn [gather_from]; rewrite gather_step_visits.
    reflexivity.
  - intros pyperclip_copy; vm_compute; reflexivity.
Qed.

Lemma unreadable_file_skipped_unless_stat_fails_witness :
  gather_docs (init [lit "repo"]) locked_tree
  = (Raised (lit "[Errno 13] Permission denied: 'repo/locked/b.py'"),
     snd (gather_loop (init [lit "repo"])
            [([lit "repo"; lit "a.py"], File (lit "a.py") (Text (lit "<# A #>")));
             ([lit "repo"; lit "locked"],
              Dir (lit "locked")
                [NoStat (lit "b.py")
                   (lit "[Errno 13] Permission denied: 'repo/locked/b.py'")]);
             ([lit "repo"; lit "z"],
              Dir (lit "z") [File (lit "c.sh") (Text (lit "/** C */"))])])).
Proof.
  apply (proj1 (proj2 unreadable_file_skipped_unless_stat_fails)
           (init [lit "repo"]) locked_tree
           [([lit "repo"; lit "a.py"], File (lit "a.py") (Text (lit "<# A #>")));
            ([lit "repo"; lit "locked"],
             Dir (lit "locked")
               [NoStat (lit "b.py")
                  (lit "[Errno 13] Permission denied: 'repo/locked/b.py'")]);
            ([lit "repo"; lit "z"],
             Dir (lit "z") [File (lit "c.sh") (Text (lit "/** C */"))])]
           [lit "repo"; lit "locked"; lit "b.py"] (lit "b.py")
           (lit "[Errno 13] Permission denied: 'repo/locked/b.py'")
           [([lit "repo"; lit "z"; lit "c.sh"],
             File (lit "c.sh") (Text (lit "/** C */")))]
           [mkFileDoc (lit "a.py") (lit "A") None None]).
  - vm_compute; reflexivity.
  - vm_compute; reflexivity.
Defined.

Lemma allowed_suffixes_lower (s : str) :
  In s allowed_suffixes -> lower s = s.
Proof. intros [<-|[<-|[<-|[]]]]; reflexivity. Qed.

(** C10. The suffix test is exact and case-sensitive: a file whose suffix
    differs from [.py], [.sh] or [.ps1] only in letter case does not pass
    it, so the extractor is not called on it and, when the file can be
    asked for its [stat], the scan is the same as without the file; this is
    the case for the names [X.PY] and [x.Sh] in any directory, while [x.py]
    passes the test exactly when it is a regular file. *)
Theorem suffix_match_case_sensitive :
  (forall self items1 p e items2,
      In (lower (suffix p)) allowed_suffixes ->
      suffix p <> lower (suffix p) ->
      visits allowed_suffixes (p, e) = false
      /\ (forall regular,
             is_file e = Ok regular ->
             gather_loop self (items1 ++ (p, e) :: items2)
             = gather_loop self (items1 ++ items2)))
  /\ (forall dir e,
         visits allowed_suffixes (dir ++ [lit "X.PY"], e) = false
         /\ visits allowed_suffixes (dir ++ [lit "x.Sh"], e) = false
         /\ visits allowed_suffixes (dir ++ [lit "x.py"], e)
            = match is_file e with
              | Ok regular => regular
              | Raised _ => false
              end).
Proof.
  split.
  - intros self items1 p e items2 Hl Hne.
    assert (Hv : visits allowed_suffixes (p, e) = false).
    { unfold visits; cbn [fst snd].
      destruct (is_file e) as [regular|err]; [|reflexivity].
      destruct (str_in (suffix p) allowed_suffixes) eqn:Hs;
        [|apply andb_false_r].
      apply str_in_In, allowed_suffixes_lower in Hs.
      exfalso; apply Hne; symmetry; exact Hs. }
    split; [exact Hv|].
    intros regular Hf; unfold gather_loop; rewrite !gather_from_app.
    destruct (gather_from self items1 ([], [])) as [[docs|err] out];
      [|reflexivity].
    apply gather_from_skip; [|exact Hv].
    unfold stat_error; cbn [snd]; rewrite Hf; reflexivity.
  - intros dir e; unfold visits, suffix, name; cbn [fst snd].
    rewrite !last_last; destruct (is_file e) as [regular|err];
      repeat split; try reflexivity.
    + apply andb_false_r.
    + apply andb_false_r.
    + apply andb_true_r.
Qed.

Lemma suffix_match_case_sensitive_witness :
  visits allowed_suffixes
    ([lit "repo"; lit "Tool.Ps1"], File (lit "Tool.Ps1") (Text (lit "<# T #>")))
  = false
  /\ gather_loop (init [lit "repo"])
       ([([lit "repo"; lit "a.py"], File (lit "a.py") (Text (lit "<# A #>")))]
        ++ ([lit "repo"; lit "Tool.Ps1"],
            File (lit "Tool.Ps1") (Text (lit "<# T #>"))) :: [])
     = gather_loop (init [lit "repo"])
         ([([lit "repo"; lit "a.py"], File (lit "a.py") (Text (lit "<# A #>")))]
          ++ []).
Proof.
  assert (H : In (lower (suffix [lit "repo"; lit "Tool.Ps1"])) allowed_suffixes)
    by (vm_compute; auto).
  assert (H' : suffix [lit "repo"; lit "Tool.Ps1"]
               <> lower (suffix [lit "repo"; lit "Tool.Ps1"]))
    by (vm_compute; discriminate).
  split.
  - apply (proj1 (proj1 suffix_match_case_sensitive (init [lit "repo"])
             [([lit "repo"; lit "a.py"], File (lit "a.py") (Text (lit "<# A #>")))]
             [lit "repo"; lit "Tool.Ps1"]
             (File (lit "Tool.Ps1") (Text (lit "<# T #>"))) [] H H')).
  - apply (proj2 (proj1 suffix_match_case_sensitive (init [lit "repo"])
             [([lit "repo"; lit "a.py"], File (lit "a.py") (Text (lit "<# A #>")))]
             [lit "repo"; lit "Tool.Ps1"]
             (File (lit "Tool.Ps1") (Text (lit "<# T #>"))) [] H H') true).
    reflexivity.
Defined.

(** * Further properties of the gatherer *)

(** ** The extractor on a readable file under the root *)

Lemma try_patterns_under_root self rel content patterns :
  (exists d p,
      try_patterns self (root_dir self ++ rel) patterns content = inl (Some d)
      /\ In p patterns /\ occurs true p content /\ path d = path_str rel)
  \/ (try_patterns self (root_dir self ++ rel) patterns content = inl None
      /\ forall p, In p patterns -> ~ occurs true p content).
Proof.
  induction patterns as [|p ps IH]; simpl.
  - right; split; [reflexivity | intros p []].
  - destruct (re_search p content true) as [m|] eqn:Hs.
    + left; rewrite relative_to_app.
      destruct (creation_info (strip (group m 1))) as [cw cd].
      eexists; exists p; repeat split.
      * left; reflexivity.
      * eapply re_search_some_occurs; eassumption.
    + destruct IH as [(d & q & E & Hq & Ho & Hp)|[E Hn]].
      * left; exists d, q; repeat split; auto.
      * right; split; [assumption|].
        intros q [<-|Hq]; [apply re_search_none; assumption | auto].
Qed.


(** X1. For a readable file under the root the extractor prints nothing, and
    it returns no record exactly when none of the four patterns matches
    anywhere in the content. *)
Theorem extract_silent_iff_no_pattern :
  forall self rel content,
    snd (extract_doc_comment self (root_dir self ++ rel) (Text content)) = []
    /\ (fst (extract_doc_comment self (root_dir self ++ rel) (Text content))
          = None
        <-> forall p, In p doc_patterns -> ~ occurs true p content).
Proof.
  intros self rel content; unfold extract_doc_comment, try_body.
  destruct (try_patterns_under_root self rel content doc_patterns)
    as [(d & p & -> & Hp & Ho & _)|[-> Hn]]; cbn [fst snd].
  - split; [reflexivity|].
    split; [discriminate | intros H; exfalso; exact (H p Hp Ho)].
  - split; [reflexivity | tauto].
Qed.

Lemma strip_trimmed (s : str) : trimmed (strip s).
Proof. destruct (strip_split s) as (? & ? & _ & _ & _ & H); exact H. Qed.

Lemma trimmed_strip (s : str) : trimmed s -> strip s = s.
Proof.
  intros [H1 H2]; unfold strip, rstrip.
  rewrite (lstrip_clean s H1), (lstrip_clean (rev s) H2).
  apply rev_involutive.
Qed.

(** X2. Every text the extractor stores is trimmed: the description and,
    when set, [created_with] and [created_date] neither start nor end with
    white space, so trimming them again changes nothing. *)
Theorem extracted_text_trimmed :
  forall self file_path data doc,
    fst (extract_doc_comment self file_path data) = Some doc ->
    (trimmed (description doc) /\ strip (description doc) = description doc)
    /\ (forall a, created_with doc = Some a -> trimmed a /\ strip a = a)
    /\ (forall d, created_date doc = Some d -> trimmed d /\ strip d = d).
Proof.
  intros self file_path data doc H.
  apply extract_some_inv in H as (content & rel & m & _ & _ & ->).
  unfold doc_of_match, creation_info; cbn [description created_with created_date].
  split; [|split].
  - split; [apply strip_trimmed | apply trimmed_strip, strip_trimmed].
  - destruct (re_search created_pattern (strip (group m 1)) false);
      cbn [fst]; intros a E; inversion E; subst.
    split; [apply strip_trimmed | apply trimmed_strip, strip_trimmed].
  - destruct (re_search created_pattern (strip (group m 1)) false);
      cbn [snd]; intros a E; inversion E; subst.
    split; [apply strip_trimmed | apply trimmed_strip, strip_trimmed].
Qed.

Lemma extracted_text_trimmed_witness :
  (trimmed (lit "By  Created with  A  ( B )")
   /\ strip (lit "By  Created with  A  ( B )") = lit "By  Created with  A  ( B )")
  /\ (forall a, Some (lit "A") = Some a -> trimmed a /\ strip a = a)
  /\ (forall d, Some (lit "B") = Some d -> trimmed d /\ strip d = d).
Proof.
  apply (@extracted_text_trimmed (init [lit "repo"]) [lit "repo"; lit "x.py"]
           (Text (lit "/**  By  Created with  A  ( B )  */"))
           (mkFileDoc (lit "x.py") (lit "By  Created with  A  ( B )")
                      (Some (lit "B")) (Some (lit "A")))).
  vm_compute; reflexivity.
Defined.

(** ** The capture is the shortest one *)

(** X3. The capture is non-greedy: the description of the record never
    holds the closing delimiter of the pattern that was used. *)
Theorem description_excludes_closing_delimiter :
  forall self rel content i pattern opening closing,
    nth_error doc_patterns i = Some pattern ->
    nth_error delimiters i = Some (opening, closing) ->
    occurs true pattern content ->
    (forall k q, k < i -> nth_error doc_patterns k = Some q ->
                 ~ occurs true q content) ->
    exists doc,
      extract_doc_comment self (root_dir self ++ rel) (Text content)
        = (Some doc, [])
      /\ forall pre post, description doc <> pre ++ closing ++ post.
Proof.
  intros self rel content i pattern opening closing Hn Hd Ho Hlow.
  destruct (re_search pattern content true) as [m|] eqn:Hs;
    [|apply re_search_none in Hs; contradiction].
  exists (doc_of_match rel m); split.
  { unfold extract_doc_comment, try_body.
    rewrite (try_patterns_first self rel content doc_patterns Hn Hs);
      [reflexivity|].
    intros k q Hk Hq; apply re_search_none; eauto. }
  intros pre post E; cbn [doc_of_match description] in E.
  apply strip_contains in E as (pre' & post' & E).
  destruct (search_from_match_here _ _ _ _ Hs) as (pre0 & s' & _ & Hm).
  unfold group in E; cbn [Nat.sub nth] in E.
  unfold doc_patterns in Hn; unfold delimiters in Hd.
  destruct i as [|[|[|[|i]]]]; cbn [nth_error] in Hn, Hd;
    try (destruct i; discriminate);
    injection Hn as <-; injection Hd as <- <-.
  - change (match_here true (chars [DQUOTE; DQUOTE; DQUOTE] ++ LazyGroup :: chars [DQUOTE; DQUOTE; DQUOTE]) s'
            = Some (m_groups m, m_rest m)) in Hm.
    rewrite match_here_chars in Hm.
    destruct (starts_with _ s'); [|discriminate].
    destruct (m_groups m) as [|g gs]; cbn [nth] in E;
      [destruct pre'; discriminate|].
    eapply lazy_group_no_closer in Hm; [eapply Hm; exact E | discriminate].
  - change (match_here true (chars (lit "/**") ++ LazyGroup :: chars (lit "*/")) s'
            = Some (m_groups m, m_rest m)) in Hm.
    rewrite match_here_chars in Hm.
    destruct (starts_with _ s'); [|discriminate].
    destruct (m_groups m) as [|g gs]; cbn [nth] in E;
      [destruct pre'; discriminate|].
    eapply lazy_group_no_closer in Hm; [eapply Hm; exact E | discriminate].
  - change (match_here true (chars (lit "<#") ++ LazyGroup :: chars (lit "#>")) s'
            = Some (m_groups m, m_rest m)) in Hm.
    rewrite match_here_chars in Hm.
    destruct (starts_with _ s'); [|discriminate].
    destruct (m_groups m) as [|g gs]; cbn [nth] in E;
      [destruct pre'; discriminate|].
    eapply lazy_group_no_closer in Hm; [eapply Hm; exact E | discriminate].
  - change (match_here true (chars (lit "'''") ++ WsStar :: LazyGroup :: chars (lit "'''")) s'
            = Some (m_groups m, m_rest m)) in Hm.
    rewrite match_here_chars in Hm.
    destruct (starts_with _ s'); [|discriminate].
    apply match_here_ws_inv in Hm as (ws & s'' & _ & _ & Hm).
    destruct (m_groups m) as [|g gs]; cbn [nth] in E;
      [destruct pre'; discriminate|].
    eapply lazy_group_no_closer in Hm; [eapply Hm; exact E | discriminate].
Qed.

Lemma description_excludes_closing_delimiter_witness :
  exists doc,
    extract_doc_comment (init [lit "repo"]) ([lit "repo"] ++ [lit "x.ps1"])
                        (Text (lit "<# one #> two #>"))
      = (Some doc, [])
    /\ forall pre post, description doc <> pre ++ lit "#>" ++ post.
Proof.
  apply (@description_excludes_closing_delimiter (init [lit "repo"])
           [lit "x.ps1"] (lit "<# one #> two #>") 2
           (chars (lit "<#") ++ [LazyGroup] ++ chars (lit "#>"))
           (lit "<#") (lit "#>")).
  - reflexivity.
  - reflexivity.
  - eapply re_search_some_occurs; vm_compute; reflexivity.
  - intros k q Hk Hq.
    destruct k as [|[|k]]; simpl in Hq; try lia;
      inversion Hq; subst q; apply re_search_none; vm_compute; reflexivity.
Defined.

(** ** The scan as a whole *)










(** X6. A file that is not under the root never gives a record: when a
    pattern matches, making the relative path fails inside the [try], so a
    warning is printed and nothing is returned; when none matches, nothing
    is returned and nothing is printed. *)
Theorem extract_outside_root :
  forall self file_path content,
    relative_to file_path (root_dir self) = None ->
    fst (extract_doc_comment self file_path (Text content)) = None
    /\ (((exists p, In p doc_patterns /\ occurs true p content)
         /\ exists e,
             snd (extract_doc_comment self file_path (Text content))
             = [warning_line file_path e])
        \/ ((forall p, In p doc_patterns -> ~ occurs true p content)
            /\ snd (extract_doc_comment self file_path (Text content)) = [])).
Proof.
  intros self file_path content Hr.
  unfold extract_doc_comment, try_body.
  assert (H : (exists e, try_patterns self file_path doc_patterns content = inr e
                         /\ exists p, In p doc_patterns /\ occurs true p content)
              \/ (try_patterns self file_path doc_patterns content = inl None
                  /\ forall p, In p doc_patterns -> ~ occurs true p content)).
  { induction doc_patterns as [|p ps IH]; simpl.
    - right; split; [reflexivity | intros p []].
    - destruct (re_search p content true) as [m|] eqn:Hs.
      + left; rewrite Hr.
        destruct (creation_info (strip (group m 1))) as [cw cd].
        eexists; split; [reflexivity|].
        exists p; split; [left; reflexivity|].
        eapply re_search_some_occurs; eassumption.
      + destruct IH as [(e & E & q & Hq & Ho)|[E Hn]].
        * left; exists e; split; [assumption|]; exists q; auto.
        * right; split; [assumption|].
          intros q [<-|Hq]; [apply re_search_none; assumption | auto]. }
  destruct H as [(e & -> & p & Hp & Ho)|[-> Hn]]; cbn [fst snd].
  - split; [reflexivity|]; left; split; [exists p; auto|].
    exists e; reflexivity.
  - split; [reflexivity|]; right; split; [assumption | reflexivity].
Qed.

Lemma extract_outside_root_witness :
  fst (extract_doc_comment (init [lit "repo"]) [lit "other"; lit "x.py"]
         (Text (lit "<# A #>"))) = None
  /\ (((exists p, In p doc_patterns /\ occurs true p (lit "<# A #>"))
       /\ exists e,
           snd (extract_doc_comment (init [lit "repo"]) [lit "other"; lit "x.py"]
                  (Text (lit "<# A #>")))
           = [warning_line [lit "other"; lit "x.py"] e])
      \/ ((forall p, In p doc_patterns -> ~ occurs true p (lit "<# A #>"))
          /\ snd (extract_doc_comment (init [lit "repo"]) [lit "other"; lit "x.py"]
                    (Text (lit "<# A #>"))) = [])).
Proof.
  apply (@extract_outside_root (init [lit "repo"]) [lit "other"; lit "x.py"]
           (lit "<# A #>")).
  reflexivity.
Defined.



(** X8. An annotation with a non-empty agent and date shows twice in the
    report: the description of a record the extractor made still holds the
    annotation it was read from, and the formatter adds the line
    [Created with X (Y)] after it, with agent and date trimmed. *)
Theorem annotation_rendered_twice :
  forall self file_path data doc cw cd,
    fst (extract_doc_comment self file_path data) = Some doc ->
    created_with doc = Some cw ->
    created_date doc = Some cd ->
    cw <> [] -> cd <> [] ->
    has_annotation (description doc)
    /\ format_output self [doc]
       = format_output self []
         ++ [NL; NL] ++ path doc ++ [NL]
         ++ repeat DASH (length (path doc)) ++ [NL]
         ++ description doc
         ++ [NL; NL] ++ lit "Created with " ++ cw ++ lit " (" ++ cd ++ lit ")"
         ++ [NL; NL].
Proof.
  intros self file_path data doc cw cd Hx Hw Hd Hcw Hcd; split.
  - destruct (extract_creation_info _ _ _ Hx) as [E _].
    apply occurs_created_pattern.
    rewrite Hw in E; unfold creation_info in E.
    destruct (re_search created_pattern (description doc) false) as [m|] eqn:Hs;
      [|discriminate].
    eapply re_search_some_occurs; eassumption.
  - rewrite (format_output_blocks self [doc]); cbn [map concat].
    rewrite app_nil_r; unfold rendered_block, created_line.
    rewrite Hw, Hd.
    destruct cw as [|c cw]; [contradiction|].
    destruct cd as [|c' cd]; [contradiction|].
    cbn [truthy andb]; rewrite <- !app_assoc; reflexivity.
Qed.

Lemma annotation_rendered_twice_witness :
  has_annotation (lit "Tool. Created with A (B)")
  /\ format_output (init [lit "repo"])
       [mkFileDoc (lit "x.py") (lit "Tool. Created with A (B)")
                  (Some (lit "B")) (Some (lit "A"))]
     = format_output (init [lit "repo"]) []
       ++ [NL; NL] ++ lit "x.py" ++ [NL]
       ++ repeat DASH (length (lit "x.py")) ++ [NL]
       ++ lit "Tool. Created with A (B)"
       ++ [NL; NL] ++ lit "Created with " ++ lit "A" ++ lit " (" ++ lit "B"
       ++ lit ")"
       ++ [NL; NL].
Proof.
  apply (@annotation_rendered_twice (init [lit "repo"])
           [lit "repo"; lit "x.py"]
           (Text (lit "<# Tool. Created with A (B) #>"))
           (mkFileDoc (lit "x.py") (lit "Tool. Created with A (B)")
                      (Some (lit "B")) (Some (lit "A")))
           (lit "A") (lit "B"));
    try reflexivity; discriminate.
Defined.

(** * The bootstrap scripts *)

Ltac red_state :=
  cbn [fst snd negb Proc.trace Proc.logs Proc.environ Proc.sys_prefix] in *.

Ltac unfold_proc :=
  unfold Proc.bind, Proc.ret, Proc.raise, Proc.sys_exit, Proc.try_except,
    Proc.log, Proc.subprocess_run, Proc.shutil_which, Proc.exists_,
    Proc.getenv, Proc.setenv, Proc.set_sys_prefix in *;
  red_state.

(** Case analysis on what the world answers, one query at a time. *)
Ltac ask_world :=
  red_state;
  match goal with
  | |- context [match Proc.run ?w ?tr ?env ?c with _ => _ end] =>
      destruct (Proc.run w tr env c) eqn:?
  | |- context [match Proc.which ?w ?tr ?env ?n with _ => _ end] =>
      destruct (Proc.which w tr env n) eqn:?
  | |- context [if Proc.path_exists ?w ?tr ?p then _ else _] =>
      destruct (Proc.path_exists w tr p) eqn:?
  | |- context [if negb (Proc.path_exists ?w ?tr ?p) then _ else _] =>
      destruct (Proc.path_exists w tr p) eqn:?; cbn [negb]
  | |- context [match Proc.lookup ?k ?env with _ => _ end] =>
      destruct (Proc.lookup k env) eqn:?
  | |- context [if truthy ?p then _ else _] => destruct (truthy p) eqn:?
  | |- context [if str_in ?s ?l then _ else _] => destruct (str_in s l) eqn:?
  | |- context [if str_eqb ?a ?b then _ else _] => destruct (str_eqb a b) eqn:?
  end.

(** ** [init.py] *)

Module InitPyFacts.

Import Proc InitPy.

Ltac run_script :=
  unfold main, run_platform_script, run_python_bootstrap, get_platform,
    setup_logging, platform_command, bootstrap_command in *;
  unfold_proc.

Lemma unix_is_unix : str_eqb (lit "unix") (lit "unix") = true.
Proof. reflexivity. Qed.

Lemma windows_is_not_unix : str_eqb (lit "windows") (lit "unix") = false.
Proof. reflexivity. Qed.

(** The three ways the platform is told apart. *)
Lemma platform_cases (w : World) :
  (str_in (system w) [lit "darwin"; lit "linux"] = true)
  \/ (str_in (system w) [lit "darwin"; lit "linux"] = false
      /\ str_eqb (system w) (lit "windows") = true)
  \/ (str_in (system w) [lit "darwin"; lit "linux"] = false
      /\ str_eqb (system w) (lit "windows") = false).
Proof.
  destruct (str_in (system w) [lit "darwin"; lit "linux"]); [auto|].
  destruct (str_eqb (system w) (lit "windows")); auto.
Qed.

(** X9. On a platform that is neither Darwin, Linux nor Windows, [main] runs
    no command: it logs [Setup failed: Unsupported platform: <system>] and
    leaves with status 1. *)
Theorem init_main_unsupported_platform :
  forall w script_dir st,
    open_log w = None ->
    str_in (system w) [lit "darwin"; lit "linux"; lit "windows"] = false ->
    main w script_dir st
    = (SystemExit 1,
       mkState (trace st)
               (logs st ++ [(ERROR, lit "Setup failed: Unsupported platform: "
                                    ++ system w)])
               (environ st) (sys_prefix st)).
Proof.
  intros w script_dir st Hlog Hsys.
  assert (H1 : str_in (system w) [lit "darwin"; lit "linux"] = false).
  { unfold str_in in *; cbn [existsb] in *.
    repeat (apply orb_false_iff in Hsys as [? Hsys]).
    repeat (apply orb_false_iff; split); auto. }
  assert (H2 : str_eqb (system w) (lit "windows") = false).
  { unfold str_in in Hsys; cbn [existsb] in Hsys.
    repeat (apply orb_false_iff in Hsys as [? Hsys]); assumption. }
  run_script; rewrite Hlog, H1, H2; reflexivity.
Qed.

Lemma init_main_unsupported_platform_witness :
  main (mkWorld (lit "freebsd") (lit "/") (lit ":") (lit "python3") None
                (fun _ _ _ => Completed []) (fun _ _ _ => None) (fun _ _ => true))
       [lit "repo"; lit "tooling"; lit "bootstrap"]
       (mkState [] [] [] (lit "/usr"))
  = (SystemExit 1,
     mkState []
             ([] ++ [(ERROR, lit "Setup failed: Unsupported platform: "
                             ++ lit "freebsd")])
             [] (lit "/usr")).
Proof.
  apply (@init_main_unsupported_platform
           (mkWorld (lit "freebsd") (lit "/") (lit ":") (lit "python3") None
                    (fun _ _ _ => Completed []) (fun _ _ _ => None)
                    (fun _ _ => true))
           [lit "repo"; lit "tooling"; lit "bootstrap"]
           (mkState [] [] [] (lit "/usr")));
    reflexivity.
Defined.

(** X10. Once the log file is open, [main] ends in one of two ways: it
    returns, or it leaves with status 1; no exception escapes and no other
    status is used.  It returns exactly when the platform is supported and
    both the setup script and the Python bootstrap end with status 0. *)
Theorem init_main_exit_status :
  forall w script_dir st,
    open_log w = None ->
    (fst (main w script_dir st) = Return tt
     \/ fst (main w script_dir st) = SystemExit 1)
    /\ (fst (main w script_dir st) = Return tt <->
        exists pc out1 out2,
          platform_command w script_dir = Some pc
          /\ run w (trace st) (environ st) pc = Completed out1
          /\ run w (trace st ++ [pc]) (environ st) (bootstrap_command w script_dir)
             = Completed out2).
Proof.
  intros w script_dir st Hlog.
  destruct (platform_cases w) as [H1|[[H1 H2]|[H1 H2]]];
    run_script; rewrite Hlog, H1, ?H2; red_state.
  - rewrite unix_is_unix; red_state.
    destruct (run w (trace st) _ _) as [o1|rc t|t] eqn:R1;
      red_state.
    + destruct (run w (trace st ++ _) _ _) as [o2|rc t|t] eqn:R2;
        red_state.
      * split; [left; reflexivity|].
        split; [intros _; do 3 eexists; repeat split; eassumption | reflexivity].
      * split; [right; reflexivity|].
        split; [discriminate|].
        intros (pc & a & b & E & Ha & Hb); inversion E; subst; congruence.
      * split; [right; reflexivity|].
        split; [discriminate|].
        intros (pc & a & b & E & Ha & Hb); inversion E; subst; congruence.
    + split; [right; reflexivity|].
      split; [discriminate|].
      intros (pc & a & b & E & Ha & Hb); inversion E; subst; congruence.
    + split; [right; reflexivity|].
      split; [discriminate|].
      intros (pc & a & b & E & Ha & Hb); inversion E; subst; congruence.
  - rewrite windows_is_not_unix; red_state.
    destruct (run w (trace st) _ _) as [o1|rc t|t] eqn:R1;
      red_state.
    + destruct (run w (trace st ++ _) _ _) as [o2|rc t|t] eqn:R2;
        red_state.
      * split; [left; reflexivity|].
        split; [intros _; do 3 eexists; repeat split; eassumption | reflexivity].
      * split; [right; reflexivity|].
        split; [discriminate|].
        intros (pc & a & b & E & Ha & Hb); inversion E; subst; congruence.
      * split; [right; reflexivity|].
        split; [discriminate|].
        intros (pc & a & b & E & Ha & Hb); inversion E; subst; congruence.
    + split; [right; reflexivity|].
      split; [discriminate|].
      intros (pc & a & b & E & Ha & Hb); inversion E; subst; congruence.
    + split; [right; reflexivity|].
      split; [discriminate|].
      intros (pc & a & b & E & Ha & Hb); inversion E; subst; congruence.
  - split; [right; reflexivity|].
    split; [discriminate | intros (pc & a & b & E & _); discriminate].
Qed.


Lemma init_main_exit_status_witness :
  fst (main (mkWorld (lit "linux") (lit "/") (lit ":") (lit "python3") None
               (fun _ _ _ => Completed []) (fun _ _ _ => None) (fun _ _ => true))
            [lit "repo"] (mkState [] [] [] (lit "/usr")))
  = Return tt.
Proof.
  apply (proj2 (@init_main_exit_status
           (mkWorld (lit "linux") (lit "/") (lit ":") (lit "python3") None
                    (fun _ _ _ => Completed []) (fun _ _ _ => None)
                    (fun _ _ => true))
           [lit "repo"] (mkState [] [] [] (lit "/usr")) eq_refl)).
  do 3 eexists; repeat split; reflexivity.
Defined.

(** X11. [main] runs at most two commands, the setup script of the platform
    and then the Python bootstrap, each at most once, and it runs the
    Python bootstrap only after the setup script ended with status 0. *)
Theorem init_bootstrap_after_setup :
  forall w script_dir st,
    trace (snd (main w script_dir st)) = trace st
    \/ exists pc,
        platform_command w script_dir = Some pc
        /\ (trace (snd (main w script_dir st)) = trace st ++ [pc]
            /\ (forall out, run w (trace st) (environ st) pc <> Completed out)
            \/ trace (snd (main w script_dir st))
               = trace st ++ [pc; bootstrap_command w script_dir]
               /\ exists out, run w (trace st) (environ st) pc = Completed out).
Proof.
  intros w script_dir st.
  destruct (open_log w) as [e|] eqn:Hlog;
    [run_script; rewrite Hlog; left; reflexivity|].
  destruct (platform_cases w) as [H1|[[H1 H2]|[H1 H2]]];
    run_script; rewrite Hlog, H1, ?H2; red_state.
  - rewrite unix_is_unix; red_state.
    right; eexists; split; [reflexivity|].
    destruct (run w (trace st) _ _) as [o1|rc t|t] eqn:R1;
      red_state.
    + right; split; [|eexists; reflexivity].
      destruct (run w (trace st ++ _) _ _) as [o2|rc t|t];
        red_state; rewrite <- app_assoc; reflexivity.
    + left; split; [reflexivity | discriminate].
    + left; split; [reflexivity | discriminate].
  - rewrite windows_is_not_unix; red_state.
    right; eexists; split; [reflexivity|].
    destruct (run w (trace st) _ _) as [o1|rc t|t] eqn:R1;
      red_state.
    + right; split; [|eexists; reflexivity].
      destruct (run w (trace st ++ _) _ _) as [o2|rc t|t];
        red_state; rewrite <- app_assoc; reflexivity.
    + left; split; [reflexivity | discriminate].
    + left; split; [reflexivity | discriminate].
  - left; reflexivity.
Qed.

(** X12. A failing step is reported with its exit status, and the process
    leaves with status 1 whatever that status was: when the setup script
    ends with a non-zero status the last message is
    [Setup failed with error code <status>] and the Python bootstrap is not
    run; when the Python bootstrap does, the last message is
    [Python bootstrap failed with error code <status>]. *)
Theorem init_failure_reported :
  forall w script_dir st pc,
    open_log w = None ->
    platform_command w script_dir = Some pc ->
    (forall returncode text,
        run w (trace st) (environ st) pc = NonZero returncode text ->
        fst (main w script_dir st) = SystemExit 1
        /\ trace (snd (main w script_dir st)) = trace st ++ [pc]
        /\ exists before,
            logs (snd (main w script_dir st))
            = before ++ [(ERROR, lit "Setup failed with error code "
                                 ++ str_of_Z returncode)])
    /\ (forall out returncode text,
           run w (trace st) (environ st) pc = Completed out ->
           run w (trace st ++ [pc]) (environ st) (bootstrap_command w script_dir)
             = NonZero returncode text ->
           fst (main w script_dir st) = SystemExit 1
           /\ exists before,
               logs (snd (main w script_dir st))
               = before ++ [(ERROR, lit "Python bootstrap failed with error code "
                                    ++ str_of_Z returncode)]).
Proof.
  intros w script_dir st pc Hlog Hpc.
  destruct (platform_cases w) as [H1|[[H1 H2]|[H1 H2]]];
    run_script; rewrite Hlog, H1, ?H2 in *; red_state;
    try discriminate; injection Hpc as <-.
  - rewrite unix_is_unix; red_state; split.
    + intros rc t R1; rewrite R1; red_state.
      repeat split; eexists; reflexivity.
    + intros out rc t R1 R2; rewrite R1; red_state.
      rewrite R2; red_state.
      repeat split; eexists; reflexivity.
  - rewrite windows_is_not_unix; red_state; split.
    + intros rc t R1; rewrite R1; red_state.
      repeat split; eexists; reflexivity.
    + intros out rc t R1 R2; rewrite R1; red_state.
      rewrite R2; red_state.
      repeat split; eexists; reflexivity.
Qed.

Lemma init_failure_reported_witness :
  fst (main (mkWorld (lit "darwin") (lit "/") (lit ":") (lit "python3") None
               (fun _ _ _ => NonZero 3 (lit "failed")) (fun _ _ _ => None)
               (fun _ _ => true))
            [lit "repo"] (mkState [] [] [] (lit "/usr")))
  = SystemExit 1
  /\ trace (snd (main (mkWorld (lit "darwin") (lit "/") (lit ":")
                         (lit "python3") None
                         (fun _ _ _ => NonZero 3 (lit "failed"))
                         (fun _ _ _ => None) (fun _ _ => true))
                      [lit "repo"] (mkState [] [] [] (lit "/usr"))))
     = [] ++ [Exec [lit "bash"; lit "repo/unix/setup.sh"] None]
  /\ exists before,
      logs (snd (main (mkWorld (lit "darwin") (lit "/") (lit ":")
                         (lit "python3") None
                         (fun _ _ _ => NonZero 3 (lit "failed"))
                         (fun _ _ _ => None) (fun _ _ => true))
                      [lit "repo"] (mkState [] [] [] (lit "/usr"))))
      = before ++ [(ERROR, lit "Setup failed with error code " ++ str_of_Z 3)].
Proof.
  apply (proj1 (@init_failure_reported
           (mkWorld (lit "darwin") (lit "/") (lit ":") (lit "python3") None
                    (fun _ _ _ => NonZero 3 (lit "failed")) (fun _ _ _ => None)
                    (fun _ _ => true))
           [lit "repo"] (mkState [] [] [] (lit "/usr"))
           (Exec [lit "bash"; lit "repo/unix/setup.sh"] None)
           eq_refl eq_refl) 3%Z (lit "failed")).
  reflexivity.
Defined.

End InitPyFacts.

(** ** [python_bootstrap.py] *)

Module PythonBootstrapFacts.

Import Proc PythonBootstrap SampleWorlds.

Ltac run_bootstrap :=
  unfold main, ensure_uv_installed, check_uv_installation,
    get_uv_install_command, setup_venv, activate_venv, install_dependencies,
    get_activation_script in *;
  unfold_proc.

(** X13. Whatever the world answers, [main] ends by returning or by leaving
    with status 1: every exception of a step is logged as
    [Setup failed: ...] and turned into status 1, and no other status is
    used. *)
Theorem bootstrap_main_exit_status :
  forall w repo_root st,
    fst (main w repo_root st) = Return tt
    \/ fst (main w repo_root st) = SystemExit 1.
Proof.
  intros w repo_root st; run_bootstrap.
  repeat ask_world; red_state; auto.
Qed.


(** X14. [ensure_uv_installed] returns only when [uv] has been checked to
    work: the last command it ran is [uv --version], [uv] was on the path
    then, and the command ended with status 0. *)
Theorem ensure_uv_verified :
  forall w st,
    fst (ensure_uv_installed w st) = Return tt ->
    exists tr p out,
      trace (snd (ensure_uv_installed w st)) = tr ++ [uv_version_command]
      /\ which w tr (environ st) (lit "uv") = Some p
      /\ truthy p = true
      /\ run w tr (environ st) uv_version_command = Completed out.
Proof.
  intros w st; run_bootstrap.
  repeat ask_world; red_state; intros H; try discriminate H;
    do 3 eexists; repeat split; try reflexivity; eassumption.
Qed.

Lemma ensure_uv_verified_witness :
  exists tr p out,
    trace (snd (ensure_uv_installed fresh_machine first_state))
      = tr ++ [uv_version_command]
    /\ which fresh_machine tr (environ first_state) (lit "uv") = Some p
    /\ truthy p = true
    /\ run fresh_machine tr (environ first_state) uv_version_command
       = Completed out.
Proof.
  apply (@ensure_uv_verified fresh_machine first_state); reflexivity.
Defined.

Lemma lookup_other (k key v : str) (env : list (str * str)) :
  key <> k -> lookup key ((k, v) :: env) = lookup key env.
Proof.
  intros H; simpl.
  destruct (str_eqb k key) eqn:E; [|reflexivity].
  apply str_eqb_eq in E; congruence.
Qed.

(** X15. When the activation script exists and [PATH] is set,
    [activate_venv] returns after putting the directory of that script in
    front of [PATH], setting [VIRTUAL_ENV] and [sys.prefix] to the
    environment, and changing no other variable; it runs no command. *)
Theorem activate_venv_environment :
  forall w venv_path st old_path,
    path_exists w (trace st) (get_activation_script w venv_path) = true ->
    lookup (lit "PATH") (environ st) = Some old_path ->
    exists st' venv_bin script,
      activate_venv w venv_path st = (Return tt, st')
      /\ get_activation_script w venv_path = venv_bin ++ [script]
      /\ lookup (lit "PATH") (environ st')
         = Some (pstr w venv_bin ++ pathsep w ++ old_path)
      /\ lookup (lit "VIRTUAL_ENV") (environ st') = Some (pstr w venv_path)
      /\ sys_prefix st' = pstr w venv_path
      /\ trace st' = trace st
      /\ forall key,
          key <> lit "PATH" -> key <> lit "VIRTUAL_ENV" ->
          lookup key (environ st') = lookup key (environ st).
Proof.
  intros w venv_path st old_path Hs Hp.
  unfold activate_venv; unfold_proc; rewrite Hs; red_state.
  cbn [lookup]; change (str_eqb (lit "VIRTUAL_ENV") (lit "PATH")) with false.
  cbn iota; rewrite Hp; red_state.
  unfold get_activation_script.
  destruct (str_eqb (system w) (lit "windows")).
  - exists (mkState (trace st)
              (logs st ++ [(INFO, lit "Activated virtual environment at "
                                  ++ pstr w venv_path)])
              ((lit "PATH", pstr w (venv_path ++ [lit "Scripts"])
                            ++ pathsep w ++ old_path)
               :: (lit "VIRTUAL_ENV", pstr w venv_path) :: environ st)
              (pstr w venv_path)),
      (venv_path ++ [lit "Scripts"]), (lit "activate.bat").
    red_state; repeat split.
    + rewrite <- app_assoc; reflexivity.
    + intros key H1 H2; rewrite !lookup_other by assumption; reflexivity.
  - exists (mkState (trace st)
              (logs st ++ [(INFO, lit "Activated virtual environment at "
                                  ++ pstr w venv_path)])
              ((lit "PATH", pstr w (venv_path ++ [lit "bin"])
                            ++ pathsep w ++ old_path)
               :: (lit "VIRTUAL_ENV", pstr w venv_path) :: environ st)
              (pstr w venv_path)),
      (venv_path ++ [lit "bin"]), (lit "activate").
    red_state; repeat split.
    + rewrite <- app_assoc; reflexivity.
    + intros key H1 H2; rewrite !lookup_other by assumption; reflexivity.
Qed.

Lemma activate_venv_environment_witness :
  exists st' venv_bin script,
    activate_venv fresh_machine [lit "repo"; lit "monorepo"]
                  (mkState [uv_version_command] []
                           [(lit "PATH", lit "/usr/bin")] (lit "/usr"))
      = (Return tt, st')
    /\ get_activation_script fresh_machine [lit "repo"; lit "monorepo"]
       = venv_bin ++ [script]
    /\ lookup (lit "PATH") (environ st')
       = Some (pstr fresh_machine venv_bin ++ pathsep fresh_machine
               ++ lit "/usr/bin")
    /\ lookup (lit "VIRTUAL_ENV") (environ st')
       = Some (pstr fresh_machine [lit "repo"; lit "monorepo"])
    /\ sys_prefix st' = pstr fresh_machine [lit "repo"; lit "monorepo"]
    /\ trace st' = trace (mkState [uv_version_command] []
                            [(lit "PATH", lit "/usr/bin")] (lit "/usr"))
    /\ forall key,
        key <> lit "PATH" -> key <> lit "VIRTUAL_ENV" ->
        lookup key (environ st')
        = lookup key (environ (mkState [uv_version_command] []
                                 [(lit "PATH", lit "/usr/bin")] (lit "/usr"))).
Proof.
  apply (@activate_venv_environment fresh_machine [lit "repo"; lit "monorepo"]
           (mkState [uv_version_command] [] [(lit "PATH", lit "/usr/bin")]
                    (lit "/usr"))
           (lit "/usr/bin"));
    reflexivity.
Defined.


(** X16. How [activate_venv] fails.  Without the activation script it logs
    the missing path and leaves with status 1, the environment untouched.
    With the script but without [PATH] in the environment, reading [PATH]
    raises [KeyError], whose text is ['PATH'], after [VIRTUAL_ENV] has been
    set: the activation is left half done, with [sys.prefix] unchanged and
    no message logged. *)
Theorem activate_venv_failures :
  forall w venv_path st,
    (path_exists w (trace st) (get_activation_script w venv_path) = false ->
     activate_venv w venv_path st
     = (SystemExit 1,
        mkState (trace st)
                (logs st ++ [(ERROR, lit "Activation script not found: "
                                     ++ pstr w (get_activation_script w venv_path))])
                (environ st) (sys_prefix st)))
    /\ (path_exists w (trace st) (get_activation_script w venv_path) = true ->
        lookup (lit "PATH") (environ st) = None ->
        activate_venv w venv_path st
        = (Raise (KeyError (lit "PATH")),
           mkState (trace st) (logs st)
                   ((lit "VIRTUAL_ENV", pstr w venv_path) :: environ st)
                   (sys_prefix st))
        /\ exn_str (KeyError (lit "PATH")) = lit "'PATH'").
Proof.
  intros w venv_path st; split.
  - intros Hs; unfold activate_venv; unfold_proc; rewrite Hs; reflexivity.
  - intros Hs Hp; unfold activate_venv; unfold_proc; rewrite Hs; red_state.
    cbn [lookup]; change (str_eqb (lit "VIRTUAL_ENV") (lit "PATH")) with false.
    cbn iota; rewrite Hp; split; reflexivity.
Qed.

Lemma activate_venv_failures_witness :
  activate_venv fresh_machine [lit "repo"; lit "monorepo"]
                (mkState [uv_version_command] [] [] (lit "/usr"))
  = (Raise (KeyError (lit "PATH")),
     mkState [uv_version_command] []
             ((lit "VIRTUAL_ENV",
               pstr fresh_machine [lit "repo"; lit "monorepo"]) :: [])
             (lit "/usr"))
  /\ exn_str (KeyError (lit "PATH")) = lit "'PATH'".
Proof.
  apply (proj2 (@activate_venv_failures fresh_machine
                  [lit "repo"; lit "monorepo"]
                  (mkState [uv_version_command] [] [] (lit "/usr"))));
    reflexivity.
Defined.

(** X17. Running [main] again on a machine that is set up is cheap: when
    [uv] works, the environment and its activation script exist, [PATH] is
    set and [requirements.txt] exists, [main] runs [uv --version] and
    [uv pip install -r requirements.txt] in the repository root and nothing
    else, neither the installer nor [uv venv]; it returns exactly when the
    install ends with status 0. *)
Theorem bootstrap_main_rerun :
  forall w repo_root st p out old_path,
    which w (trace st) (environ st) (lit "uv") = Some p ->
    truthy p = true ->
    run w (trace st) (environ st) uv_version_command = Completed out ->
    path_exists w (trace st ++ [uv_version_command])
                (repo_root ++ [lit "monorepo"]) = true ->
    path_exists w (trace st ++ [uv_version_command])
                (get_activation_script w (repo_root ++ [lit "monorepo"])) = true ->
    path_exists w (trace st ++ [uv_version_command])
                (repo_root ++ [lit "requirements.txt"]) = true ->
    lookup (lit "PATH") (environ st) = Some old_path ->
    trace (snd (main w repo_root st))
    = trace st ++ [uv_version_command; pip_install_command repo_root]
    /\ (fst (main w repo_root st) = Return tt <->
        exists out',
          run w (trace st ++ [uv_version_command])
              (environ (snd (main w repo_root st)))
              (pip_install_command repo_root)
          = Completed out').
Proof.
  intros w repo_root st p out old_path Hw Ht Hr He1 He2 He3 Hp.
  run_bootstrap; rewrite Hw, Ht; red_state; rewrite Hr; red_state.
  rewrite He1; red_state; rewrite He2; red_state.
  cbn [lookup]; change (str_eqb (lit "VIRTUAL_ENV") (lit "PATH")) with false.
  cbn iota; rewrite Hp; red_state; rewrite He3; red_state.
  destruct (run w (trace st ++ [uv_version_command]) _
              (pip_install_command repo_root)) as [o|rc t|t] eqn:R;
    red_state; [destruct (str_eqb (system w) (lit "windows")); red_state|..];
    rewrite <- app_assoc; (split; [reflexivity|]).
  - split; [intros _; eexists; eassumption | reflexivity].
  - split; [intros _; eexists; eassumption | reflexivity].
  - split; [discriminate | intros [o E]; congruence].
  - split; [discriminate | intros [o E]; congruence].
Qed.

Lemma bootstrap_main_rerun_witness :
  trace (snd (main ready_machine [lit "repo"] first_state))
  = trace first_state
    ++ [uv_version_command; pip_install_command [lit "repo"]]
  /\ (fst (main ready_machine [lit "repo"] first_state) = Return tt <->
      exists out',
        run ready_machine (trace first_state ++ [uv_version_command])
            (environ (snd (main ready_machine [lit "repo"] first_state)))
            (pip_install_command [lit "repo"])
        = Completed out').
Proof.
  apply (@bootstrap_main_rerun ready_machine [lit "repo"] first_state
           (lit "/usr/bin/uv") (lit "uv 0.5.1") (lit "/usr/bin"));
    reflexivity.
Defined.


(** X18. [main] installs the dependencies last and at most once, and only
    into an activated environment: when it runs
    [uv pip install -r requirements.txt], [uv --version] has been run before,
    [requirements.txt] exists, and [VIRTUAL_ENV] and [PATH] have been set
    for the environment of the repository. *)
Theorem bootstrap_pip_install_last :
  forall w repo_root st,
    exists before rest,
      trace (snd (main w repo_root st)) = trace st ++ before ++ rest
      /\ ~ In (pip_install_command repo_root) before
      /\ (rest = []
          \/ rest = [pip_install_command repo_root]
             /\ In uv_version_command before
             /\ path_exists w (trace st ++ before)
                            (repo_root ++ [lit "requirements.txt"]) = true
             /\ exists old_path,
                 environ (snd (main w repo_root st))
                 = (lit "PATH",
                    pstr w ((repo_root ++ [lit "monorepo"])
                            ++ [if str_eqb (system w) (lit "windows")
                                then lit "Scripts" else lit "bin"])
                    ++ pathsep w ++ old_path)
                   :: (lit "VIRTUAL_ENV", pstr w (repo_root ++ [lit "monorepo"]))
                   :: environ st).
Proof.
  intros w repo_root st; run_bootstrap.
  repeat ask_world; red_state;
    rewrite <- ?app_assoc in *; cbn [app] in *;
    match goal with
    | |- exists before rest, trace st = _ /\ _ =>
        exists [], []; split; [rewrite app_nil_r; reflexivity|];
        split; [intros [] | left; reflexivity]
    | |- exists before rest, trace st ++ ?l = _ /\ _ =>
        let b := eval cbv [removelast] in (removelast l) in
        first
          [ exists b, [pip_install_command repo_root];
            split; [reflexivity|];
            split;
            [ unfold pip_install_command, uv_version_command, venv_command;
              cbn [In]; intuition discriminate
            | right; split; [reflexivity|];
              split; [cbn [In]; auto|];
              split; [assumption | eexists; reflexivity] ]
          | exists l, []; split; [rewrite app_nil_r; reflexivity|];
            split;
            [ unfold pip_install_command, uv_version_command, venv_command;
              cbn [In]; intuition discriminate
            | left; reflexivity ] ]
    end.
Qed.

End PythonBootstrapFacts.
